(** * Online Pokedex (streamlit_app.py): the view-model and its loading pipeline

    A shallow embedding of [src/streamlit_app.py]: the [Pokemon] dataclass
    with its constructor [from_dict] and its three properties
    ([front_image], [back_image], [stats_series]), the two loaders
    [load_pokemon] and [load_all_pokemons], the template [pokemon_template]
    and the body of the module, one run of the page.

    The spec calls these [EntityViewModel], [from_record], [front_image()],
    [back_image()], [stats_view()], [fetch_entity] and [fetch_all_names];
    the definitions below keep the names of the source. *)

From Stdlib Require Import String Ascii ZArith Bool Lia List.
From Stdlib Require Import Strings.Byte.
From Stdlib Require DecimalString.
Import ListNotations.
Open Scope string_scope.
Open Scope list_scope.

Set Warnings "-register-all".

(** ** Python values and exceptions *)

(** What [json.loads] builds: [None], [bool], [int], [str], [list], [dict].
    A [dict] is kept as its items in insertion order; numbers are the
    integers (the service's schema has no fractional number, and Python's
    [int] is unbounded). *)
Inductive json : Type :=
| JNull
| JBool (b : bool)
| JInt (n : Z)
| JStr (s : string)
| JArr (xs : list json)
| JObj (kvs : list (string * json)).

(** The exceptions that can reach a caller of this module.  [KeyError] and
    [TypeError] are raised by the subscripts, the iteration and the hashing
    written in the source; [LibError] is anything raised inside [requests]
    or [json], named by its class. *)
Inductive exn : Type :=
| KeyError (key : string)
| TypeError
| LibError (cls : string).

Inductive result (A : Type) : Type :=
| Ok (a : A)
| Raise (e : exn).
Arguments Ok {A} a.
Arguments Raise {A} e.

(** ** Monads: exceptions, and exceptions with a world *)

Class Monad (M : Type -> Type) : Type := {
  ret : forall {A}, A -> M A;
  bind : forall {A B}, M A -> (A -> M B) -> M B
}.

Declare Scope py_scope.
Delimit Scope py_scope with py.
Notation "x <- c ;; k" := (bind c (fun x => k))
  (at level 100, c at next level, right associativity) : py_scope.
Open Scope py_scope.

#[export] Instance result_Monad : Monad result := {
  ret := fun A a => Ok a;
  bind := fun A B m k => match m with Ok a => k a | Raise e => Raise e end
}.

(** ** Dictionaries *)

(** A Python [dict]: items in insertion order.  [setitem] on a key that is
    already there replaces the value where the key stands (and keeps the key
    object that was inserted first); a new key goes to the end. *)
Module PyDict.
Section WithKey.
Context {K V : Type} (eqb : K -> K -> bool).

Fixpoint get (d : list (K * V)) (k : K) : option V :=
  match d with
  | [] => None
  | (k', v') :: d' => if eqb k' k then Some v' else get d' k
  end.

Fixpoint setitem (d : list (K * V)) (k : K) (v : V) : list (K * V) :=
  match d with
  | [] => [(k, v)]
  | (k', v') :: d' =>
      if eqb k' k then (k', v) :: d' else (k', v') :: setitem d' k v
  end.

Definition update (d : list (K * V)) (kvs : list (K * V)) : list (K * V) :=
  fold_left (fun acc kv => setitem acc (fst kv) (snd kv)) kvs d.

(** The number of items of [d] stored under a key equal to [k]. *)
Definition count (d : list (K * V)) (k : K) : nat :=
  length (filter (fun kv => eqb (fst kv) k) d).

(** No item of [d] has a key equal to [k]. *)
Definition fresh (k : K) (d : list (K * V)) : Prop :=
  Forall (fun kv => eqb (fst kv) k = false) d.

(** The keys of [d] are different from one another. *)
Fixpoint distinct (d : list (K * V)) : Prop :=
  match d with
  | [] => True
  | kv :: d' => fresh (fst kv) d' /\ distinct d'
  end.
End WithKey.
End PyDict.

(** [x[key]] for a string literal [key]. *)
Definition getitem (x : json) (key : string) : result json :=
  match x with
  | JObj kvs =>
      match PyDict.get String.eqb kvs key with
      | Some v => Ok v
      | None => Raise (KeyError key)
      end
  | _ => Raise TypeError
  end.

(** [for x in v]: a list gives its elements, a dict its keys, a string its
    characters; anything else is not iterable. *)
Definition py_iter (v : json) : result (list json) :=
  match v with
  | JArr xs => Ok xs
  | JObj kvs => Ok (map (fun kv => JStr (fst kv)) kvs)
  | JStr s => Ok (map (fun c => JStr (String c EmptyString)) (list_ascii_of_string s))
  | _ => Raise TypeError
  end.

(** The hashable values, as dictionary keys.  Python compares [True] equal
    to [1] and [False] equal to [0], with equal hashes. *)
Inductive hkey : Type :=
| HNone
| HBool (b : bool)
| HInt (n : Z)
| HStr (s : string).

Definition py_hash (v : json) : result hkey :=
  match v with
  | JNull => Ok HNone
  | JBool b => Ok (HBool b)
  | JInt n => Ok (HInt n)
  | JStr s => Ok (HStr s)
  | JArr _ | JObj _ => Raise TypeError
  end.

Definition hkey_num (k : hkey) : option Z :=
  match k with
  | HBool b => Some (Z.b2z b)
  | HInt n => Some n
  | _ => None
  end.

Definition hkey_eqb (a b : hkey) : bool :=
  match a, b with
  | HNone, HNone => true
  | HStr s, HStr t => String.eqb s t
  | _, _ =>
      match hkey_num a, hkey_num b with
      | Some x, Some y => Z.eqb x y
      | _, _ => false
      end
  end.

Definition dict : Type := list (hkey * json).

(** ** Library objects *)

(** [pandas.Series(d)] for a dict [d], kept as the dict it is built from:
    the labels and values of [d], in the order of [d].  That is the series
    itself when the labels are text and the values integers, the shape of
    the service's statistics.  On other values pandas picks a dtype and
    converts ([None] among integers becomes NaN, the integers floats), so
    what is proved of the values of a series is proved for entries of that
    shape. *)
Record Series : Type := pd_Series { items : dict }.

Definition index (s : Series) : list hkey := map fst (items s).
Definition values (s : Series) : list json := map snd (items s).

(** [io.BytesIO(b)]: the bytes and the read position, which starts at 0. *)
Record BytesIO : Type := mkBytesIO { getvalue : list byte; tell : nat }.

Definition io_BytesIO (b : list byte) : BytesIO :=
  {| getvalue := b; tell := 0 |}.

(** A [requests.Response], by the two attributes the source reads. *)
Record Response : Type := mkResponse { content : list byte; text : string }.

(** ** The Pokemon dataclass *)

(** The annotations of the dataclass are not enforced: every field holds
    whatever value the payload had. *)
Record Pokemon : Type := mkPokemon {
  name : json;
  base_experience : json;
  sprite_front_default : json;
  sprite_back_default : json;
  stats : json
}.

(** [Pokemon.from_dict]: the keyword arguments are evaluated in the order
    they are written. *)
Definition from_dict (payload : json) : result Pokemon :=
  name <- getitem payload "name";;
  base_experience <- getitem payload "base_experience";;
  sprite_front_default <-
    (sprites <- getitem payload "sprites";; getitem sprites "front_default");;
  sprite_back_default <-
    (sprites <- getitem payload "sprites";; getitem sprites "back_default");;
  stats <- getitem payload "stats";;
  ret (mkPokemon name base_experience sprite_front_default
         sprite_back_default stats).

(** One round of the dict comprehension of [stats_series]: the key
    expression [stat["stat"]["name"]], then the value expression
    [stat["base_stat"]] (the order of Python 3.8 and later), then the hash
    of the key for the store. *)
Definition stat_name (stat : json) : result json :=
  s <- getitem stat "stat";; getitem s "name".

Definition stat_item (stat : json) : result (hkey * json) :=
  k <- stat_name stat;;
  v <- getitem stat "base_stat";;
  h <- py_hash k;;
  ret (h, v).

Fixpoint dict_comprehension (todo : list json) (acc : dict) : result dict :=
  match todo with
  | [] => ret acc
  | stat :: rest =>
      kv <- stat_item stat;;
      dict_comprehension rest (PyDict.setitem hkey_eqb acc (fst kv) (snd kv))
  end.

(** [Pokemon.stats_series]. *)
Definition stats_series (self : Pokemon) : result Series :=
  todo <- py_iter (stats self);;
  stats_dict <- dict_comprehension todo [];;
  ret (pd_Series stats_dict).

(** ** The network *)

(** [requests.get] and [json.loads] are library code.  The transport is a
    transition on a network state of any type: it is handed the argument of
    [requests.get] as it is, and answers with a response or raises.  The
    world also keeps the arguments of the calls made so far. *)
Section Transport.
Variable Net : Type.
Variable transport : json -> Net -> result Response * Net.
Variable json_loads : string -> result json.

Record World : Type := mkWorld { net : Net; sent : list json }.

Definition IO (A : Type) : Type := World -> result A * World.

#[export] Instance IO_Monad : Monad IO := {
  ret := fun A a w => (Ok a, w);
  bind := fun A B m k w =>
    match m w with
    | (Ok a, w') => k a w'
    | (Raise e, w') => (Raise e, w')
    end
}.

Definition lift {A : Type} (r : result A) : IO A := fun w => (r, w).

(** [requests.get(url)] *)
Definition requests_get (url : json) : IO Response :=
  fun w =>
    let (r, n) := transport url (net w) in
    (r, {| net := n; sent := sent w ++ [url] |}).

(** [Pokemon.front_image] and [Pokemon.back_image]. *)
Definition front_image (self : Pokemon) : IO BytesIO :=
  picture_resp <- requests_get (sprite_front_default self);;
  ret (io_BytesIO (content picture_resp)).

Definition back_image (self : Pokemon) : IO BytesIO :=
  picture_resp <- requests_get (sprite_back_default self);;
  ret (io_BytesIO (content picture_resp)).

(** [load_pokemon]: the f-string puts the name, a [str], between the two
    literal parts. *)
Definition load_pokemon (pokemon_name : string) : IO json :=
  let poke_url :=
    ("https://pokeapi.co/api/v2/pokemon/" ++ pokemon_name ++ "/")%string in
  resp <- requests_get (JStr poke_url);;
  lift (json_loads (text resp)).

(** The list comprehension of [load_all_pokemons]. *)
Fixpoint names_of (todo : list json) : result (list json) :=
  match todo with
  | [] => ret []
  | pokemon :: rest =>
      n <- getitem pokemon "name";;
      ns <- names_of rest;;
      ret (n :: ns)
  end.

(** [load_all_pokemons], the function under the [st.cache] decorator.
    The decorator is the framework's memoisation and is not part of this
    definition (the page, further down, has it). *)
Definition load_all_pokemons : IO (list json) :=
  resp <- requests_get
            (JStr "https://pokeapi.co/api/v2/pokemon?limit=100000&offset=0");;
  resp_to_json <- lift (json_loads (text resp));;
  lift (results <- getitem resp_to_json "results";;
        todo <- py_iter results;;
        names_of todo).

(** *** The instance as an object *)

(** A [Pokemon] is an ordinary mutable object (the dataclass is not
    frozen).  A program holding one instance is in a state made of the
    instance and the world; reading a property runs its body on the
    instance as it is then.  None of the three bodies assigns to an
    attribute of [self], so the step writes the instance back as it
    found it. *)
Inductive accessor : Type := Front_image | Back_image | Stats_series.

Inductive value : Type :=
| VBytesIO (b : BytesIO)
| VSeries (s : Series).

Record Program : Type := mkProgram { this : Pokemon; world : World }.

Definition property (a : accessor) (self : Pokemon) : IO value :=
  match a with
  | Front_image => b <- front_image self;; ret (VBytesIO b)
  | Back_image => b <- back_image self;; ret (VBytesIO b)
  | Stats_series => s <- lift (stats_series self);; ret (VSeries s)
  end.

Definition read (a : accessor) (st : Program) : result value * Program :=
  let (r, w) := property a (this st) (world st) in
  (r, {| this := this st; world := w |}).

(** A sequence of reads, each one caught or not: the state after them. *)
Definition reads (calls : list accessor) (st : Program) : Program :=
  fold_left (fun st a => snd (read a st)) calls st.
End Transport.

Arguments mkWorld {Net} net sent.
Arguments net {Net} w.
Arguments sent {Net} w.
Arguments mkProgram {Net} this world.
Arguments this {Net} p.
Arguments world {Net} p.
Arguments lift {Net A} r.
Arguments requests_get {Net} transport url.
Arguments front_image {Net} transport self.
Arguments back_image {Net} transport self.
Arguments load_pokemon {Net} transport json_loads pokemon_name.
Arguments load_all_pokemons {Net} transport json_loads.
Arguments property {Net} transport a self.
Arguments read {Net} transport a st.
Arguments reads {Net} transport calls st.

(** ** The records of the service, and what the claims say of them *)

(** The label of a series as the value it was hashed from. *)
Definition json_of_hkey (k : hkey) : json :=
  match k with
  | HNone => JNull
  | HBool b => JBool b
  | HInt n => JInt n
  | HStr s => JStr s
  end.

Definition text_or_null (v : json) : bool :=
  match v with
  | JStr _ | JNull => true
  | _ => false
  end.

(** A statistic entry [{stat: {name: text}, base_stat: integer}]. *)
Definition well_formed_stat (e : json) : bool :=
  match stat_name e, getitem e "base_stat" with
  | Ok (JStr _), Ok (JInt _) => true
  | _, _ => false
  end.

(** The record of [GET {base}/pokemon/{name}/]: a text name, an integer
    base experience, the two sprite URLs (text or null) under [sprites],
    and a sequence of statistic entries.  Other keys may be there too. *)
Definition well_formed_record (payload : json) : bool :=
  match getitem payload "name", getitem payload "base_experience",
        getitem payload "sprites", getitem payload "stats" with
  | Ok (JStr _), Ok (JInt _), Ok sprites, Ok (JArr entries) =>
      match getitem sprites "front_default", getitem sprites "back_default" with
      | Ok f, Ok b =>
          text_or_null f && text_or_null b && forallb well_formed_stat entries
      | _, _ => false
      end
  | _, _, _, _ => false
  end.

(** The [stats] sequence of a record. *)
Definition record_stats (payload : json) : list json :=
  match getitem payload "stats" with
  | Ok (JArr entries) => entries
  | _ => []
  end.

(** The series has one item per statistic entry, in the order of the
    entries: the label is the entry's [stat.name], the value its
    [base_stat]. *)
Definition one_entry_per_stat (entries : list json) (s : Series) : Prop :=
  Forall2 (fun e kv => stat_name e = Ok (json_of_hkey (fst kv)) /\
                       getitem e "base_stat" = Ok (snd kv))
          entries (items s).

(** The entries of a sequence whose name is equal to the key [k]. *)
Definition named (k : hkey) (e : json) : bool :=
  match stat_item e with
  | Ok kv => hkey_eqb (fst kv) k
  | Raise _ => false
  end.

(** Every round of the comprehension goes through: each entry has its
    nested name and its base value, and the name can be hashed. *)
Definition all_evaluate (entries : list json) : bool :=
  forallb (fun e => match stat_item e with Ok _ => true | Raise _ => false end)
          entries.

(** The same, with the items that the rounds give. *)
Abbreviation evaluates := (Forall2 (fun e kv => stat_item e = Ok kv)).

(** The five keys that [from_dict] reads. *)
Definition has_key (x : json) (key : string) : bool :=
  match x with
  | JObj kvs =>
      match PyDict.get String.eqb kvs key with
      | Some _ => true
      | None => false
      end
  | _ => false
  end.

Definition has_path (x : json) (key1 key2 : string) : bool :=
  match getitem x key1 with
  | Ok y => has_key y key2
  | Raise _ => false
  end.

Definition has_expected_keys (payload : json) : bool :=
  has_key payload "name" && has_key payload "base_experience" &&
  has_path payload "sprites" "front_default" &&
  has_path payload "sprites" "back_default" &&
  has_key payload "stats".

(** The value under [sprites] is missing, or is a mapping. *)
Definition sprites_mapping_if_present (payload : json) : bool :=
  match getitem payload "sprites" with
  | Ok (JObj _) => true
  | Ok _ => false
  | Raise _ => true
  end.

Definition is_KeyError (e : exn) : bool :=
  match e with
  | KeyError _ => true
  | _ => false
  end.

(** ** Sample data *)

(** The record of the spec's fixed example. *)
Definition bulbasaur_record : json :=
  JObj [ ("name", JStr "bulbasaur");
         ("base_experience", JInt 64);
         ("sprites", JObj [("front_default", JStr "url-f");
                           ("back_default", JStr "url-b")]);
         ("stats", JArr [ JObj [("stat", JObj [("name", JStr "hp")]);
                                ("base_stat", JInt 45)];
                          JObj [("stat", JObj [("name", JStr "attack")]);
                                ("base_stat", JInt 49)] ]) ].

(** Two entries under the same name. *)
Definition twice_hp_record : json :=
  JObj [ ("name", JStr "bulbasaur");
         ("base_experience", JInt 64);
         ("sprites", JObj [("front_default", JStr "url-f");
                           ("back_default", JStr "url-b")]);
         ("stats", JArr [ JObj [("stat", JObj [("name", JStr "hp")]);
                                ("base_stat", JInt 45)];
                          JObj [("stat", JObj [("name", JStr "hp")]);
                                ("base_stat", JInt 50)] ]) ].

(** No front sprite. *)
Definition null_front_record : json :=
  JObj [ ("name", JStr "bulbasaur");
         ("base_experience", JInt 64);
         ("sprites", JObj [("front_default", JNull);
                           ("back_default", JStr "url-b")]);
         ("stats", JArr []) ].

(** No [stats] key, and [null] where the sprites should be. *)
Definition null_sprites_record : json :=
  JObj [ ("name", JStr "bulbasaur");
         ("base_experience", JInt 64);
         ("sprites", JNull) ].

(** No [stats] key. *)
Definition no_stats_record : json :=
  JObj [ ("name", JStr "bulbasaur");
         ("base_experience", JInt 64);
         ("sprites", JObj [("front_default", JStr "url-f");
                           ("back_default", JStr "url-b")]) ].

Definition listing_record : json :=
  JObj [ ("count", JInt 2);
         ("results", JArr [ JObj [("name", JStr "bulbasaur")];
                            JObj [("name", JStr "ivysaur")] ]) ].

(** A transport for the examples.  Its state counts the requests it
    answered.  Like [requests], it raises [MissingSchema] on an argument
    that is no URL with a scheme, before anything is sent. *)
Definition png : list byte := [x89; x50; x4e; x47].

Definition mock_transport (url : json) (n : nat) : result Response * nat :=
  match url with
  | JStr u =>
      if String.prefix "https://" u
      then (Ok {| content := png; text := u |}, S n)
      else (Raise (LibError "requests.exceptions.MissingSchema"), n)
  | _ => (Raise (LibError "requests.exceptions.MissingSchema"), n)
  end.

(** A decoder for the examples: it knows the bodies of two URLs. *)
Definition mock_json_loads (body : string) : result json :=
  if String.eqb body "https://pokeapi.co/api/v2/pokemon/bulbasaur/"
  then Ok bulbasaur_record
  else if String.eqb body
            "https://pokeapi.co/api/v2/pokemon?limit=100000&offset=0"
  then Ok listing_record
  else Raise (LibError "json.decoder.JSONDecodeError").

Definition mock_world : World nat := {| net := 0; sent := [] |}.

(** What the spec asks of an image accessor on a null URL: started in the
    world [w], it returns (it does not raise) and it has made no request. *)
Definition no_image {Net : Type} (w : World Net)
    (out : result BytesIO * World Net) : Prop :=
  (exists b, fst out = Ok b) /\ sent (snd out) = sent w.

(** The addresses of the service. *)
Definition base_url : string := "https://pokeapi.co/api/v2".

Definition entity_url (pokemon_name : string) : string :=
  (base_url ++ "/pokemon/" ++ pokemon_name ++ "/")%string.

Definition listing_url (limit offset : string) : string :=
  (base_url ++ "/pokemon?limit=" ++ limit ++ "&offset=" ++ offset)%string.

(** ** Further notions *)

(** The keys of a list, each one where it first occurs. *)
Module PyKeys.
Section WithKey.
Context {K : Type} (eqb : K -> K -> bool).

Fixpoint first_occurrences (ks : list K) : list K :=
  match ks with
  | [] => []
  | k :: ks' =>
      k :: filter (fun k' => negb (eqb k k')) (first_occurrences ks')
  end.
End WithKey.
End PyKeys.

(** The keys that the rounds of the comprehension store, in their order. *)
Definition stat_keys (entries : list json) : list hkey :=
  flat_map (fun e => match stat_item e with
                     | Ok kv => [fst kv]
                     | Raise _ => []
                     end) entries.

Definition is_mapping (v : json) : bool :=
  match v with
  | JObj _ => true
  | _ => false
  end.

(** The argument of [requests.get] in the body of each property. *)
Definition requested (self : Pokemon) (a : accessor) : list json :=
  match a with
  | Front_image => [sprite_front_default self]
  | Back_image => [sprite_back_default self]
  | Stats_series => []
  end.

(** ** The page *)

(** [f"{x}"] for a decoded value: a [str] is put in as it is, [None], a
    [bool] and an [int] by their [str()].  The text of a list or of a dict
    is left to [py_repr]. *)
Definition py_format (py_repr : json -> string) (x : json) : string :=
  match x with
  | JStr s => s
  | JNull => "None"
  | JBool true => "True"
  | JBool false => "False"
  | JInt n => DecimalString.NilZero.string_of_int (Z.to_int n)
  | JArr _ | JObj _ => py_repr x
  end.

(** The calls into Streamlit that the module makes. *)
Inductive widget : Type :=
| St_title (body : string)
| St_sidebar_selectbox (label : string) (options : list json)
| St_subheader (body : json)
| St_image (image : list BytesIO)
| St_bar_chart (data : Series).

(** Streamlit is library code, as the transport is: a call is a transition
    on a state of the framework of any type, and it returns or raises.
    [selectbox] gives what the call of the select box returns, the others
    return nothing that the module uses.  A session is the world, the state
    of the framework, the calls made so far and the memo of [st.cache].

    [st.cache] on a function without arguments, as the framework documents
    it: the first call that returns stores its value, every later call gives
    the stored value back without running the body, and a call that raises
    stores nothing. *)
Section Page.
Variable Net : Type.
Variable Ui : Type.
Variable transport : json -> Net -> result Response * Net.
Variable json_loads : string -> result json.
Variable draw : widget -> Ui -> result unit * Ui.
Variable selectbox : string -> list json -> Ui -> result json * Ui.
Variable py_repr : json -> string.

Record Session : Type := mkSession {
  outside : World Net;
  ui : Ui;
  drawn : list widget;
  memo : option (list json)
}.

Definition App (A : Type) : Type := Session -> result A * Session.

#[export] Instance App_Monad : Monad App := {
  ret := fun A a s => (Ok a, s);
  bind := fun A B m k s =>
    match m s with
    | (Ok a, s') => k a s'
    | (Raise e, s') => (Raise e, s')
    end
}.

(** A computation on the world alone, run in a session. *)
Definition io {A : Type} (m : IO Net A) : App A :=
  fun s =>
    let (r, w) := m (outside s) in
    (r, {| outside := w; ui := ui s; drawn := drawn s; memo := memo s |}).

Definition st (w : widget) : App unit :=
  fun s =>
    let (r, u) := draw w (ui s) in
    (r, {| outside := outside s; ui := u; drawn := drawn s ++ [w];
           memo := memo s |}).

Definition st_sidebar_selectbox (label : string) (options : list json)
    : App json :=
  fun s =>
    let (r, u) := selectbox label options (ui s) in
    (r, {| outside := outside s; ui := u;
           drawn := drawn s ++ [St_sidebar_selectbox label options];
           memo := memo s |}).

(** [load_all_pokemons] as the module calls it, under [@st.cache]. *)
Definition load_all_pokemons_cached : App (list json) :=
  fun s =>
    match memo s with
    | Some names => (Ok names, s)
    | None =>
        match load_all_pokemons transport json_loads (outside s) with
        | (Ok names, w) =>
            (Ok names, {| outside := w; ui := ui s; drawn := drawn s;
                          memo := Some names |})
        | (Raise e, w) =>
            (Raise e, {| outside := w; ui := ui s; drawn := drawn s;
                         memo := None |})
        end
    end.

(** [pokemon_template]: the arguments of a call are evaluated before the
    call, and the two images from left to right. *)
Definition pokemon_template (pokemon_to_render : Pokemon) : App unit :=
  _ <- st (St_subheader (name pokemon_to_render));;
  front <- io (front_image transport pokemon_to_render);;
  back <- io (back_image transport pokemon_to_render);;
  _ <- st (St_image [front; back]);;
  series <- io (lift (stats_series pokemon_to_render));;
  st (St_bar_chart series).

(** The body of the module, under the banner "Streamlit app": one run of
    the script. *)
Definition streamlit_app : App unit :=
  _ <- st (St_title "Online Pokedex");;
  options <- load_all_pokemons_cached;;
  pokemon_choice <- st_sidebar_selectbox "Select Pokemon" options;;
  payload <- io (load_pokemon transport json_loads
                   (py_format py_repr pokemon_choice));;
  bulbasaur <- io (lift (from_dict payload));;
  pokemon_template bulbasaur.
End Page.

Arguments mkSession {Net Ui} outside ui drawn memo.
Arguments outside {Net Ui} s.
Arguments ui {Net Ui} s.
Arguments drawn {Net Ui} s.
Arguments memo {Net Ui} s.
Arguments io {Net Ui A} m.
Arguments st {Net Ui} draw w.
Arguments st_sidebar_selectbox {Net Ui} selectbox label options.
Arguments load_all_pokemons_cached {Net Ui} transport json_loads.
Arguments pokemon_template {Net Ui} transport draw pokemon_to_render.
Arguments streamlit_app {Net Ui} transport json_loads draw selectbox py_repr.

(** ** The bodies of the properties, run on an object *)

(** The five attributes of an instance, read as [self.x] and assigned as
    [self.x = v]. *)
Inductive attribute : Type :=
| Attr_name
| Attr_base_experience
| Attr_sprite_front_default
| Attr_sprite_back_default
| Attr_stats.

Definition attr_get (p : Pokemon) (a : attribute) : json :=
  match a with
  | Attr_name => name p
  | Attr_base_experience => base_experience p
  | Attr_sprite_front_default => sprite_front_default p
  | Attr_sprite_back_default => sprite_back_default p
  | Attr_stats => stats p
  end.

Definition attr_set (p : Pokemon) (a : attribute) (v : json) : Pokemon :=
  match a with
  | Attr_name =>
      mkPokemon v (base_experience p) (sprite_front_default p)
        (sprite_back_default p) (stats p)
  | Attr_base_experience =>
      mkPokemon (name p) v (sprite_front_default p)
        (sprite_back_default p) (stats p)
  | Attr_sprite_front_default =>
      mkPokemon (name p) (base_experience p) v
        (sprite_back_default p) (stats p)
  | Attr_sprite_back_default =>
      mkPokemon (name p) (base_experience p) (sprite_front_default p)
        v (stats p)
  | Attr_stats =>
      mkPokemon (name p) (base_experience p) (sprite_front_default p)
        (sprite_back_default p) v
  end.

(** A body runs in a frame: the attributes of [self] as they are now, and
    the world.  A statement of a body may read an attribute, assign one,
    call [requests.get], or evaluate an expression on values; each is a
    step on the frame.  The bodies below are the statements of the source,
    one for one: whether they assign or request is read off them, not off
    their type. *)
Section Object.
Variable Net : Type.
Variable transport : json -> Net -> result Response * Net.

Record Frame : Type := mkFrame { instance : Pokemon; around : World Net }.

Definition Body (A : Type) : Type := Frame -> result A * Frame.

#[export] Instance Body_Monad : Monad Body := {
  ret := fun A a f => (Ok a, f);
  bind := fun A B m k f =>
    match m f with
    | (Ok a, f') => k a f'
    | (Raise e, f') => (Raise e, f')
    end
}.

(** [self.a] *)
Definition self_get (a : attribute) : Body json :=
  fun f => (Ok (attr_get (instance f) a), f).

(** [self.a = v] *)
Definition self_set (a : attribute) (v : json) : Body unit :=
  fun f => (Ok tt, {| instance := attr_set (instance f) a v;
                      around := around f |}).

(** [requests.get(url)] *)
Definition self_request (url : json) : Body Response :=
  fun f =>
    let (r, w) := requests_get transport url (around f) in
    (r, {| instance := instance f; around := w |}).

(** An expression on values: a subscript, an iteration, a hash. *)
Definition expr {A : Type} (r : result A) : Body A := fun f => (r, f).

Definition front_image_body : Body BytesIO :=
  url <- self_get Attr_sprite_front_default;;
  picture_resp <- self_request url;;
  ret (io_BytesIO (content picture_resp)).

Definition back_image_body : Body BytesIO :=
  url <- self_get Attr_sprite_back_default;;
  picture_resp <- self_request url;;
  ret (io_BytesIO (content picture_resp)).

Fixpoint comprehension_body (todo : list json) (acc : dict) : Body dict :=
  match todo with
  | [] => ret acc
  | stat :: rest =>
      inner <- expr (getitem stat "stat");;
      k <- expr (getitem inner "name");;
      v <- expr (getitem stat "base_stat");;
      h <- expr (py_hash k);;
      comprehension_body rest (PyDict.setitem hkey_eqb acc h v)
  end.

Definition stats_series_body : Body Series :=
  seq <- self_get Attr_stats;;
  todo <- expr (py_iter seq);;
  stats_dict <- comprehension_body todo [];;
  ret (pd_Series stats_dict).

Definition body (a : accessor) : Body value :=
  match a with
  | Front_image => b <- front_image_body;; ret (VBytesIO b)
  | Back_image => b <- back_image_body;; ret (VBytesIO b)
  | Stats_series => s <- stats_series_body;; ret (VSeries s)
  end.

(** A sequence of reads of the properties, each one caught or not: the
    frame after them. *)
Definition run (calls : list accessor) (f : Frame) : Frame :=
  fold_left (fun f a => snd (body a f)) calls f.
End Object.

Arguments mkFrame {Net} instance around.
Arguments instance {Net} f.
Arguments around {Net} f.
Arguments self_get {Net} a.
Arguments self_set {Net} a v.
Arguments self_request {Net} transport url.
Arguments expr {Net A} r.
Arguments front_image_body {Net} transport.
Arguments back_image_body {Net} transport.
Arguments comprehension_body {Net} todo acc.
Arguments stats_series_body {Net}.
Arguments body {Net} transport a.
Arguments run {Net} transport calls f.

(** The list that the select box of a run can be given: the one in the
    memo, or else the one that [load_all_pokemons] returns. *)
Definition listing_of {Net Ui : Type}
    (transport : json -> Net -> result Response * Net)
    (json_loads : string -> result json)
    (s : Session Net Ui) (options : list json) : Prop :=
  match memo s with
  | Some names => options = names
  | None =>
      fst (load_all_pokemons transport json_loads (outside s)) = Ok options
  end.

(** ** Sample data for the page *)

(** A record whose sprites have URLs with a scheme, a listing with an entry
    that has no name, and a decoder that gives chosen values for the listing
    and for the entities. *)
Definition pikachu_record : json :=
  JObj [ ("name", JStr "pikachu");
         ("base_experience", JInt 112);
         ("sprites", JObj [("front_default", JStr "https://img/25.png");
                           ("back_default", JStr "https://img/back/25.png")]);
         ("stats", JArr [ JObj [("stat", JObj [("name", JStr "hp")]);
                                ("base_stat", JInt 35)] ]) ].

Definition pikachu : Pokemon :=
  mkPokemon (JStr "pikachu") (JInt 112) (JStr "https://img/25.png")
    (JStr "https://img/back/25.png")
    (JArr [ JObj [("stat", JObj [("name", JStr "hp")]);
                  ("base_stat", JInt 35)] ]).

Definition pikachu_listing : json :=
  JObj [ ("results", JArr [ JObj [("name", JStr "pikachu")] ]) ].

Definition nameless_listing : json :=
  JObj [ ("results", JArr [ JObj [("name", JStr "bulbasaur")];
                            JObj [("url", JStr "https://pokeapi.co")];
                            JObj [("name", JStr "ivysaur")] ]) ].

Definition mock_decoder (listing entity : json) (body : string)
    : result json :=
  if String.eqb body "https://pokeapi.co/api/v2/pokemon?limit=100000&offset=0"
  then Ok listing
  else if String.prefix "https://pokeapi.co/api/v2/pokemon/" body
  then Ok entity
  else Raise (LibError "json.decoder.JSONDecodeError").

(** A framework for the examples: it accepts every call and counts them;
    its select box returns the first option, or [None] when there is
    none. *)
Definition mock_draw (w : widget) (n : nat) : result unit * nat :=
  (Ok tt, S n).

Definition mock_selectbox (label : string) (options : list json) (n : nat)
    : result json * nat :=
  (Ok (hd JNull options), S n).

Definition mock_repr (x : json) : string := "".

Definition mock_session : Session nat nat :=
  {| outside := mock_world; ui := 0; drawn := []; memo := None |}.

(** * Facts about dictionaries *)

Module PyDictFacts.
Import PyDict.

Section WithEquivalence.
Context {K V : Type} (eqb : K -> K -> bool).
Hypothesis eqb_refl : forall a, eqb a a = true.
Hypothesis eqb_sym : forall a b, eqb a b = eqb b a.
Hypothesis eqb_trans :
  forall a b c, eqb a b = true -> eqb b c = true -> eqb a c = true.

Abbreviation get := (@PyDict.get K V eqb).
Abbreviation setitem := (@PyDict.setitem K V eqb).
Abbreviation update := (@PyDict.update K V eqb).
Abbreviation count := (@PyDict.count K V eqb).
Abbreviation fresh := (@PyDict.fresh K V eqb).
Abbreviation distinct := (@PyDict.distinct K V eqb).

Lemma eqb_left a b c : eqb a b = true -> eqb a c = eqb b c.
Proof.
  intros Hab. destruct (eqb b c) eqn:Hbc.
  - eauto.
  - destruct (eqb a c) eqn:Hac; [|reflexivity].
    rewrite <- Hbc. symmetry. apply eqb_trans with a; [|assumption].
    now rewrite eqb_sym.
Qed.

Lemma get_setitem d k v k' :
  get (setitem d k v) k' = if eqb k k' then Some v else get d k'.
Proof.
  induction d as [|[k0 v0] d IH]; simpl.
  - reflexivity.
  - destruct (eqb k0 k) eqn:E0; simpl.
    + rewrite (eqb_left _ _ k' E0). now destruct (eqb k k').
    + rewrite IH. destruct (eqb k0 k') eqn:E1; [|reflexivity].
      destruct (eqb k k') eqn:E2; [|reflexivity].
      rewrite eqb_sym in E2. rewrite (eqb_trans _ _ _ E1 E2) in E0.
      discriminate.
Qed.

Lemma update_app d a b : update d (a ++ b) = update (update d a) b.
Proof. unfold PyDict.update. apply fold_left_app. Qed.

Lemma update_cons d kv kvs :
  update d (kv :: kvs) = update (setitem d (fst kv) (snd kv)) kvs.
Proof. reflexivity. Qed.

Lemma get_update_fresh kvs : forall d k,
  fresh k kvs -> get (update d kvs) k = get d k.
Proof.
  induction kvs as [|[k0 v0] kvs IH]; intros d k Hf.
  - reflexivity.
  - inversion Hf as [|? ? H0 Hf']; subst. simpl in H0.
    rewrite update_cons, IH by assumption. simpl.
    now rewrite get_setitem, H0.
Qed.

Lemma get_fresh d k : fresh k d -> get d k = None.
Proof.
  induction 1 as [|[k0 v0] d H0 _ IH]; simpl in *.
  - reflexivity.
  - now rewrite H0.
Qed.

Lemma get_None_fresh d k : get d k = None -> fresh k d.
Proof.
  induction d as [|[k0 v0] d IH]; simpl; intros H.
  - constructor.
  - destruct (eqb k0 k) eqn:E; [discriminate|].
    constructor; [exact E|apply IH, H].
Qed.

Lemma count_fresh d k : fresh k d -> count d k = 0.
Proof.
  unfold count. induction 1 as [|kv d H0 _ IH]; simpl.
  - reflexivity.
  - now rewrite H0.
Qed.

Lemma fresh_eqb d k k' : eqb k k' = true -> fresh k d -> fresh k' d.
Proof.
  intros E. unfold fresh. apply Forall_impl. intros kv H.
  rewrite <- H. rewrite !(eqb_sym (fst kv)). symmetry. now apply eqb_left.
Qed.

(** A store under a new key appends; under a key that is there it leaves
    the keys as they are. *)
Lemma setitem_fresh d k v : fresh k d -> setitem d k v = d ++ [(k, v)].
Proof.
  induction 1 as [|[k0 v0] d H0 _ IH]; simpl in *.
  - reflexivity.
  - now rewrite H0, IH.
Qed.

Lemma setitem_keys d k v :
  get d k <> None -> map fst (setitem d k v) = map fst d.
Proof.
  induction d as [|[k0 v0] d IH]; simpl; intros H.
  - congruence.
  - destruct (eqb k0 k); simpl; [reflexivity|]. now rewrite IH.
Qed.

Lemma count_keys d d' k : map fst d = map fst d' -> count d k = count d' k.
Proof.
  unfold count. revert d'.
  induction d as [|[k0 v0] d IH]; intros [|[k1 v1] d'] H; simpl in *;
    try discriminate; [reflexivity|].
  injection H as -> H. destruct (eqb k1 k); simpl; auto.
Qed.

Lemma count_app d d' k : count (d ++ d') k = count d k + count d' k.
Proof. unfold count. now rewrite filter_app, length_app. Qed.

Lemma distinct_count d : distinct d -> forall k, count d k <= 1.
Proof.
  induction d as [|[k0 v0] d IH]; simpl; intros H k.
  - unfold count. simpl. lia.
  - destruct H as [Hf Hd]. specialize (IH Hd k).
    unfold count in *. simpl. destruct (eqb k0 k) eqn:E; simpl; [|assumption].
    pose proof (count_fresh _ _ (fresh_eqb _ _ _ E Hf)) as C. unfold count in C.
    rewrite C. lia.
Qed.

Lemma fresh_setitem d k v k' :
  eqb k k' = false -> fresh k' d -> fresh k' (setitem d k v).
Proof.
  intros E. induction 1 as [|[k0 v0] d H0 Hd IH]; simpl in *.
  - repeat constructor. assumption.
  - destruct (eqb k0 k); constructor; simpl; auto.
Qed.

Lemma distinct_setitem d k v : distinct d -> distinct (setitem d k v).
Proof.
  induction d as [|[k0 v0] d IH]; simpl; intros H.
  - split; [constructor|exact I].
  - destruct H as [Hf Hd]. destruct (eqb k0 k) eqn:E; simpl.
    + split; assumption.
    + split; [|auto]. apply fresh_setitem; [|assumption].
      now rewrite eqb_sym.
Qed.

Lemma distinct_update kvs : forall d, distinct d -> distinct (update d kvs).
Proof.
  induction kvs as [|kv kvs IH]; intros d H; [assumption|].
  rewrite update_cons. apply IH, distinct_setitem, H.
Qed.

Lemma count_get d k : get d k <> None -> 1 <= count d k.
Proof.
  unfold count. induction d as [|[k0 v0] d IH]; simpl; intros H.
  - congruence.
  - destruct (eqb k0 k); simpl; [lia|auto].
Qed.

Lemma length_setitem d k v :
  length (setitem d k v) =
  match get d k with Some _ => length d | None => S (length d) end.
Proof.
  induction d as [|[k0 v0] d IH]; simpl.
  - reflexivity.
  - destruct (eqb k0 k); simpl; [reflexivity|].
    rewrite IH. now destruct (get d k).
Qed.

Lemma length_update kvs : forall d,
  length (update d kvs) <= length d + length kvs.
Proof.
  induction kvs as [|kv kvs IH]; intros d.
  - simpl. lia.
  - rewrite update_cons. specialize (IH (setitem d (fst kv) (snd kv))).
    rewrite length_setitem in IH. simpl length.
    destruct (get d (fst kv)); lia.
Qed.

Lemma get_update_mono kvs : forall d k,
  get d k <> None -> get (update d kvs) k <> None.
Proof.
  induction kvs as [|kv kvs IH]; intros d k H; [assumption|].
  rewrite update_cons. apply IH. rewrite get_setitem.
  now destruct (eqb (fst kv) k).
Qed.

(** Keys that differ from one another are all kept, in their order. *)
Lemma update_distinct kvs : forall d,
  distinct (d ++ kvs) -> update d kvs = d ++ kvs.
Proof.
  induction kvs as [|[k v] kvs IH]; intros d H.
  - simpl. now rewrite app_nil_r.
  - rewrite update_cons. simpl fst; simpl snd.
    assert (Hf : fresh k d).
    { clear IH. induction d as [|kv d IHd]; [constructor|].
      simpl in H. destruct H as [Hf Hd]. constructor; [|exact (IHd Hd)].
      unfold fresh in Hf. rewrite Forall_app in Hf. destruct Hf as [_ Hf].
      inversion Hf as [|? ? Hk _]; subst. simpl in Hk.
      now rewrite eqb_sym. }
    rewrite setitem_fresh by assumption.
    rewrite IH; rewrite <- app_assoc; simpl; [reflexivity|assumption].
Qed.
(** The value read under [k] is the one of the last store under a key
    equal to [k]. *)
Lemma get_update_last d kpre kv kpost k :
  eqb (fst kv) k = true -> fresh k kpost ->
  get (update d (kpre ++ kv :: kpost)) k = Some (snd kv).
Proof.
  intros E Hf. rewrite update_app, update_cons.
  rewrite get_update_fresh by assumption.
  now rewrite get_setitem, E.
Qed.

(** A dictionary built by stores has one item for each of its keys. *)
Lemma count_update kvs k :
  get (update [] kvs) k <> None -> count (update [] kvs) k = 1.
Proof.
  intros H. apply count_get in H.
  assert (Hd : distinct (update [] kvs)) by (apply distinct_update; exact I).
  pose proof (distinct_count _ Hd k). lia.
Qed.

(** Two stores under equal keys: fewer items than stores. *)
Lemma length_update_twice d ka kv1 kb kv2 kc :
  eqb (fst kv1) (fst kv2) = true ->
  length (update d (ka ++ kv1 :: kb ++ kv2 :: kc)) <
  length d + length (ka ++ kv1 :: kb ++ kv2 :: kc).
Proof.
  intros E.
  replace (ka ++ kv1 :: kb ++ kv2 :: kc)
    with ((ka ++ kv1 :: kb) ++ kv2 :: kc)
    by (rewrite <- app_assoc; reflexivity).
  rewrite (update_app d (ka ++ kv1 :: kb)), update_cons.
  set (d1 := update d (ka ++ kv1 :: kb)).
  assert (Hin : get d1 (fst kv2) <> None).
  { unfold d1. rewrite update_app, update_cons.
    apply get_update_mono. rewrite get_setitem, E. discriminate. }
  pose proof (length_update kc (setitem d1 (fst kv2) (snd kv2))) as L.
  rewrite length_setitem in L.
  destruct (get d1 (fst kv2)); [|congruence].
  pose proof (length_update (ka ++ kv1 :: kb) d) as L1. fold d1 in L1.
  rewrite length_app. simpl length. lia.
Qed.
End WithEquivalence.
End PyDictFacts.

(** * Facts about the keys *)

Lemma hkey_eqb_refl a : hkey_eqb a a = true.
Proof.
  destruct a; simpl; auto using String.eqb_refl, Z.eqb_refl.
Qed.

Lemma hkey_eqb_sym a b : hkey_eqb a b = hkey_eqb b a.
Proof.
  destruct a, b; simpl; auto using String.eqb_sym, Z.eqb_sym.
Qed.

Lemma hkey_eqb_trans a b c :
  hkey_eqb a b = true -> hkey_eqb b c = true -> hkey_eqb a c = true.
Proof.
  destruct a, b, c; simpl; try discriminate; auto;
    rewrite ?String.eqb_eq, ?Z.eqb_eq; congruence.
Qed.

Lemma hkey_eqb_HStr a b : hkey_eqb (HStr a) (HStr b) = true -> a = b.
Proof. simpl. apply String.eqb_eq. Qed.

(** * Facts about the comprehension *)

(** Python's dictionaries at work: [True] and [1] are one key, the key
    object of the first store stays and the value of the last one wins. *)
Example stats_series_True_1 :
  stats_series
    (mkPokemon JNull JNull JNull JNull
       (JArr [ JObj [("stat", JObj [("name", JBool true)]);
                     ("base_stat", JInt 1)];
               JObj [("stat", JObj [("name", JInt 1)]);
                     ("base_stat", JInt 2)];
               JObj [("stat", JObj [("name", JStr "a")]);
                     ("base_stat", JInt 3)] ]))
  = Ok (pd_Series [(HBool true, JInt 2); (HStr "a", JInt 3)]).
Proof. reflexivity. Qed.

(** An empty mapping or an empty string in the place of the sequence gives
    an empty series; a number is not iterable. *)
Example stats_series_not_a_list :
  stats_series (mkPokemon JNull JNull JNull JNull (JObj [])) = Ok (pd_Series [])
  /\ stats_series (mkPokemon JNull JNull JNull JNull (JStr "")) = Ok (pd_Series [])
  /\ stats_series (mkPokemon JNull JNull JNull JNull (JStr "ab")) = Raise TypeError
  /\ stats_series (mkPokemon JNull JNull JNull JNull (JInt 3)) = Raise TypeError.
Proof. repeat split. Qed.

(** The value expression is evaluated before the key is hashed. *)
Example stats_series_unhashable_name :
  stats_series
    (mkPokemon JNull JNull JNull JNull
       (JArr [JObj [("stat", JObj [("name", JArr [])])]]))
  = Raise (KeyError "base_stat").
Proof. reflexivity. Qed.

Lemma dict_comprehension_Ok todo : forall acc kvs,
  evaluates todo kvs ->
  dict_comprehension todo acc = Ok (PyDict.update hkey_eqb acc kvs).
Proof.
  induction todo as [|e todo IH]; intros acc kvs H; inversion H; subst.
  - reflexivity.
  - simpl. match goal with E : stat_item e = _ |- _ => rewrite E end.
    simpl. now apply IH.
Qed.

Lemma dict_comprehension_inv todo : forall acc d,
  dict_comprehension todo acc = Ok d ->
  exists kvs, evaluates todo kvs /\ d = PyDict.update hkey_eqb acc kvs.
Proof.
  induction todo as [|e todo IH]; simpl; intros acc d H.
  - injection H as <-. exists []. split; [constructor|reflexivity].
  - destruct (stat_item e) as [kv|err] eqn:E; simpl in H; [|discriminate].
    destruct (IH _ _ H) as (kvs & Hk & ->).
    exists (kv :: kvs). split; [constructor; assumption|reflexivity].
Qed.

Lemma stats_series_Ok self entries kvs :
  stats self = JArr entries ->
  evaluates entries kvs ->
  stats_series self = Ok (pd_Series (PyDict.update hkey_eqb [] kvs)).
Proof.
  intros Hs Hk. unfold stats_series. rewrite Hs. simpl.
  now rewrite (dict_comprehension_Ok _ _ _ Hk).
Qed.

(** What [stat_item] gives for an entry that evaluates. *)
Lemma stat_item_inv e kv :
  stat_item e = Ok kv ->
  stat_name e = Ok (json_of_hkey (fst kv)) /\
  getitem e "base_stat" = Ok (snd kv).
Proof.
  unfold stat_item. destruct (stat_name e) as [k|]; simpl; [|discriminate].
  destruct (getitem e "base_stat") as [v|]; simpl; [|discriminate].
  destruct k; simpl; try discriminate; intros H; injection H as <-; auto.
Qed.

Lemma well_formed_stat_item e :
  well_formed_stat e = true ->
  exists n v, stat_item e = Ok (HStr n, JInt v) /\ stat_name e = Ok (JStr n).
Proof.
  unfold well_formed_stat, stat_item.
  destruct (stat_name e) as [[| | |n| |]|]; try discriminate.
  destruct (getitem e "base_stat") as [[| |v| | |]|]; try discriminate.
  intros _. exists n, v. split; reflexivity.
Qed.

Lemma evaluates_In entries kvs kv :
  evaluates entries kvs -> In kv kvs ->
  exists e, In e entries /\ stat_item e = Ok kv.
Proof.
  induction 1 as [|e kv0 es kvs He _ IH]; simpl; intros Hin.
  - contradiction.
  - destruct Hin as [<-|Hin].
    + exists e. auto.
    + destruct (IH Hin) as (e' & Hin' & He'). exists e'. auto.
Qed.

Lemma evaluates_well_formed entries :
  forallb well_formed_stat entries = true ->
  exists kvs, evaluates entries kvs.
Proof.
  induction entries as [|e es IH]; simpl; intros H.
  - exists []. constructor.
  - apply andb_prop in H. destruct H as [He Hes].
    destruct (well_formed_stat_item _ He) as (n & v & Hi & _).
    destruct (IH Hes) as (kvs & Hk).
    exists ((HStr n, JInt v) :: kvs). constructor; assumption.
Qed.

(** Entries with text names that differ from one another give keys that
    differ from one another. *)
Lemma evaluates_distinct entries kvs :
  evaluates entries kvs ->
  forallb well_formed_stat entries = true ->
  NoDup (map stat_name entries) ->
  PyDict.distinct hkey_eqb kvs.
Proof.
  induction 1 as [|e kv es kvs He Hes IH]; simpl; intros Hwf Hnd.
  - exact I.
  - apply andb_prop in Hwf. destruct Hwf as [Hwe Hwes].
    inversion Hnd as [|? ? Hnotin Hnd']; subst.
    split; [|auto].
    destruct (well_formed_stat_item _ Hwe) as (n & v & Hi & Hn).
    rewrite Hi in He. injection He as <-. simpl.
    apply Forall_forall. intros kv' Hin.
    destruct (hkey_eqb (fst kv') (HStr n)) eqn:E; [exfalso|reflexivity].
    destruct (evaluates_In _ _ _ Hes Hin) as (e' & Hin' & He').
    apply stat_item_inv in He'. destruct He' as [Hn' _].
    destruct (fst kv'); simpl in E; try discriminate.
    apply String.eqb_eq in E. subst. simpl in Hn'.
    apply Hnotin. rewrite Hn, <- Hn'. now apply in_map.
Qed.

(** * The claims *)

(** C4.  On the fixed record of the spec, [from_dict] succeeds, the name of
    the instance is "bulbasaur", and [stats_series] is the series with the
    two items hp = 45 and attack = 49, hp first. *)
Theorem bulbasaur_example :
  exists self,
    from_dict bulbasaur_record = Ok self /\
    name self = JStr "bulbasaur" /\
    stats_series self =
      Ok (pd_Series [(HStr "hp", JInt 45); (HStr "attack", JInt 49)]).
Proof.
  eexists. split; [reflexivity|]. split; reflexivity.
Qed.

(** C1, as stated, fails: a record of the service's shape whose two
    statistic entries are both named "hp" gives a series of one item, so
    there is not one item per entry. *)
Lemma twice_hp_one_item :
  well_formed_record twice_hp_record = true /\
  ~ (exists self s,
       from_dict twice_hp_record = Ok self /\
       stats_series self = Ok s /\
       one_entry_per_stat (record_stats twice_hp_record) s).
Proof.
  split; [reflexivity|].
  intros (self & s & Hf & Hs & H).
  injection Hf as <-. injection Hs as <-.
  unfold one_entry_per_stat in H. simpl in H.
  inversion H as [|? ? ? ? _ H']; subst. inversion H'.
Qed.

(** C1, amended.  For every record of the service's shape whose statistic
    names differ from one another, [from_dict] succeeds and [stats_series]
    returns a series with one item per entry of the record's [stats]
    sequence, in the order of the sequence, each labelled with the entry's
    [stat.name] and holding its [base_stat]. *)
Theorem well_formed_record_stats_series payload :
  well_formed_record payload = true ->
  NoDup (map stat_name (record_stats payload)) ->
  exists self s,
    from_dict payload = Ok self /\
    stats_series self = Ok s /\
    one_entry_per_stat (record_stats payload) s.
Proof.
  unfold well_formed_record, record_stats, from_dict.
  destruct (getitem payload "name") as [[| | |n| |]|]; try discriminate.
  destruct (getitem payload "base_experience") as [[| |x| | |]|];
    try discriminate.
  destruct (getitem payload "sprites") as [sprites|]; try discriminate.
  destruct (getitem payload "stats") as [[| | | |entries|]|]; try discriminate.
  simpl.
  destruct (getitem sprites "front_default") as [f|]; try discriminate.
  destruct (getitem sprites "back_default") as [b|]; try discriminate.
  simpl. intros Hwf Hnd.
  apply andb_prop in Hwf. destruct Hwf as [_ Hwf].
  destruct (evaluates_well_formed _ Hwf) as (kvs & Hk).
  pose proof (evaluates_distinct _ _ Hk Hwf Hnd) as Hd.
  eexists. eexists. split; [reflexivity|]. split.
  - apply stats_series_Ok with (entries := entries); [reflexivity|exact Hk].
  - unfold one_entry_per_stat. simpl.
    rewrite (PyDictFacts.update_distinct hkey_eqb hkey_eqb_sym kvs [])
      by exact Hd.
    simpl. eapply Forall2_impl; [|exact Hk].
    intros e kv. apply stat_item_inv.
Qed.

(** A witness for C1: the fixed record of the spec. *)
Lemma well_formed_record_stats_series_witness :
  exists self s,
    from_dict bulbasaur_record = Ok self /\
    stats_series self = Ok s /\
    one_entry_per_stat (record_stats bulbasaur_record) s.
Proof.
  apply (well_formed_record_stats_series bulbasaur_record).
  - reflexivity.
  - simpl. repeat constructor; simpl; intuition discriminate.
Defined.

(** ** Entries under the same name *)

Lemma evaluates_all_evaluate entries :
  all_evaluate entries = true -> exists kvs, evaluates entries kvs.
Proof.
  unfold all_evaluate.
  induction entries as [|e es IH]; simpl; intros H.
  - exists []. constructor.
  - apply andb_prop in H. destruct H as [He Hes].
    destruct (stat_item e) as [kv|] eqn:E; [|discriminate].
    destruct (IH Hes) as (kvs & Hk).
    exists (kv :: kvs). constructor; assumption.
Qed.

(** The last element of a list that satisfies a test. *)
Lemma last_split {A : Type} (P : A -> bool) (l : list A) :
  existsb P l = true ->
  exists pre x post,
    l = pre ++ x :: post /\ P x = true /\
    forallb (fun y => negb (P y)) post = true.
Proof.
  induction l as [|x l IH]; simpl; intros H.
  - discriminate.
  - destruct (existsb P l) eqn:E.
    + destruct (IH eq_refl) as (pre & y & post & -> & Hy & Hpost).
      exists (x :: pre), y, post. auto.
    + rewrite orb_false_r in H. exists [], x, l. repeat split; auto.
      clear -E. induction l as [|y l IH]; simpl in *; [reflexivity|].
      apply orb_false_elim in E. destruct E as [-> E]. simpl. auto.
Qed.

Lemma named_item k e kv :
  stat_item e = Ok kv -> named k e = hkey_eqb (fst kv) k.
Proof. unfold named. now intros ->. Qed.

Lemma evaluates_fresh k post kpost :
  evaluates post kpost ->
  forallb (fun e => negb (named k e)) post = true ->
  PyDict.fresh hkey_eqb k kpost.
Proof.
  induction 1 as [|e kv es kvs He _ IH]; simpl; intros H.
  - constructor.
  - apply andb_prop in H. destruct H as [Hn Hes].
    constructor; [|exact (IH Hes)].
    rewrite (named_item k _ _ He) in Hn. now apply negb_true_iff in Hn.
Qed.



(** ** Construction *)

(** C3, as stated, fails: a mapping with no [stats] key (and no
    [sprites.front_default]) whose [sprites] value is [null] makes
    [from_dict] raise [TypeError] at [payload["sprites"]["front_default"]],
    not [KeyError]. *)
Lemma null_sprites_not_KeyError :
  has_expected_keys null_sprites_record = false /\
  has_key null_sprites_record "stats" = false /\
  from_dict null_sprites_record = Raise TypeError /\
  ~ (exists key, from_dict null_sprites_record = Raise (KeyError key)).
Proof.
  repeat split. intros [key H]. discriminate.
Qed.

(** C3, amended.  For every mapping that lacks one of the keys [name],
    [base_experience], [sprites.front_default], [sprites.back_default] and
    [stats], [from_dict] raises and returns no instance, so a record with no
    [stats] key never gives an instance with an empty series.  When the
    value under [sprites] is missing or is a mapping, the exception is the
    [KeyError] of one of the keys read; otherwise it is a [KeyError] or the
    [TypeError] of the subscript. *)
Theorem from_dict_missing_key kvs :
  has_expected_keys (JObj kvs) = false ->
  exists e,
    from_dict (JObj kvs) = Raise e /\
    (e = TypeError \/ exists key, e = KeyError key) /\
    (sprites_mapping_if_present (JObj kvs) = true ->
     exists key,
       e = KeyError key /\
       In key ["name"; "base_experience"; "sprites"; "front_default";
               "back_default"; "stats"]).
Proof.
  unfold has_expected_keys, has_path, has_key, sprites_mapping_if_present,
    from_dict, getitem. cbn.
  destruct (PyDict.get String.eqb kvs "name") as [n|]; cbn;
    [|intros _; eexists; split; [reflexivity|]; simpl; eauto 12].
  destruct (PyDict.get String.eqb kvs "base_experience") as [x|]; cbn;
    [|intros _; eexists; split; [reflexivity|]; simpl; eauto 12].
  destruct (PyDict.get String.eqb kvs "sprites") as [sprites|]; cbn;
    [|intros _; eexists; split; [reflexivity|]; simpl; eauto 12].
  destruct sprites as [| | | | |skvs]; cbn;
    try (intros _; eexists; split; [reflexivity|]; split;
         [auto|discriminate]).
  destruct (PyDict.get String.eqb skvs "front_default") as [f|]; cbn;
    [|intros _; eexists; split; [reflexivity|]; simpl; eauto 12].
  destruct (PyDict.get String.eqb skvs "back_default") as [b|]; cbn;
    [|intros _; eexists; split; [reflexivity|]; simpl; eauto 12].
  destruct (PyDict.get String.eqb kvs "stats") as [st|]; cbn;
    [discriminate|].
  intros _; eexists; split; [reflexivity|]; simpl; eauto 12.
Qed.

(** A witness for C3: the record with no [stats] key. *)
Lemma from_dict_missing_key_witness :
  exists e,
    from_dict no_stats_record = Raise e /\
    (e = TypeError \/ exists key, e = KeyError key) /\
    (sprites_mapping_if_present no_stats_record = true ->
     exists key,
       e = KeyError key /\
       In key ["name"; "base_experience"; "sprites"; "front_default";
               "back_default"; "stats"]).
Proof.
  apply (from_dict_missing_key
           [ ("name", JStr "bulbasaur");
             ("base_experience", JInt 64);
             ("sprites", JObj [("front_default", JStr "url-f");
                               ("back_default", JStr "url-b")]) ]).
  reflexivity.
Defined.

(** C10.  On every record with the five keys, [from_dict] succeeds and the
    instance holds the five values as they are in the record, a [null]
    sprite URL included.  Nothing is raised at construction: a [null] front
    (back) URL is handed to the transport when [front_image] ([back_image])
    is read, and what the transport raises then is what the accessor
    raises. *)
Theorem from_dict_keeps_null payload :
  has_expected_keys payload = true ->
  exists self,
    from_dict payload = Ok self /\
    getitem payload "name" = Ok (name self) /\
    getitem payload "base_experience" = Ok (base_experience self) /\
    (exists sprites,
       getitem payload "sprites" = Ok sprites /\
       getitem sprites "front_default" = Ok (sprite_front_default self) /\
       getitem sprites "back_default" = Ok (sprite_back_default self)) /\
    getitem payload "stats" = Ok (stats self) /\
    forall (Net : Type) (transport : json -> Net -> result Response * Net)
           (w : World Net) (e : exn) (n' : Net),
      transport JNull (net w) = (Raise e, n') ->
      (sprite_front_default self = JNull ->
       front_image transport self w = (Raise e, mkWorld n' (sent w ++ [JNull])))
      /\
      (sprite_back_default self = JNull ->
       back_image transport self w = (Raise e, mkWorld n' (sent w ++ [JNull]))).
Proof.
  destruct payload as [| | | | |kvs]; try discriminate.
  unfold has_expected_keys, has_path, has_key, from_dict, getitem. cbn.
  destruct (PyDict.get String.eqb kvs "name") as [n|]; cbn;
    [|discriminate].
  destruct (PyDict.get String.eqb kvs "base_experience") as [x|]; cbn;
    [|discriminate].
  destruct (PyDict.get String.eqb kvs "sprites") as [sprites|]; cbn;
    [|discriminate].
  destruct sprites as [| | | | |skvs]; cbn; try discriminate.
  destruct (PyDict.get String.eqb skvs "front_default") as [f|] eqn:Ef; cbn;
    [|discriminate].
  destruct (PyDict.get String.eqb skvs "back_default") as [b|] eqn:Eb; cbn;
    [|discriminate].
  destruct (PyDict.get String.eqb kvs "stats") as [st|]; cbn;
    [|discriminate].
  intros _. eexists. split; [reflexivity|]. cbn.
  split; [reflexivity|]. split; [reflexivity|]. split.
  { exists (JObj skvs). cbn. rewrite Ef, Eb. auto. }
  split; [reflexivity|].
  intros Net transport w e n' Ht.
  unfold front_image, back_image, requests_get. cbn.
  split; intros ->; rewrite Ht; reflexivity.
Qed.

(** A witness for C10: the record with a [null] front sprite, and the
    transport that raises on it. *)
Lemma from_dict_keeps_null_witness :
  exists self,
    from_dict null_front_record = Ok self /\
    sprite_front_default self = JNull /\
    front_image mock_transport self mock_world =
      (Raise (LibError "requests.exceptions.MissingSchema"),
       mkWorld 0 [JNull]).
Proof.
  destruct (from_dict_keeps_null null_front_record eq_refl)
    as (self & Hf & _ & _ & _ & _ & H).
  exists self. split; [exact Hf|].
  injection Hf as <-. split; [reflexivity|].
  exact (proj1 (H nat mock_transport mock_world _ 0 eq_refl) eq_refl).
Defined.

(** ** The image accessors *)

(** C2, as stated, fails: read on an instance whose front sprite URL is
    [null], [front_image] hands the [null] to [requests.get] and raises
    what it raises; [back_image] does the same with a [null] back URL. *)
Lemma front_image_null_requests :
  sprite_front_default
    (mkPokemon (JStr "bulbasaur") (JInt 64) JNull JNull (JArr [])) = JNull /\
  front_image mock_transport
    (mkPokemon (JStr "bulbasaur") (JInt 64) JNull JNull (JArr [])) mock_world
  = (Raise (LibError "requests.exceptions.MissingSchema"), mkWorld 0 [JNull]) /\
  ~ no_image mock_world
      (front_image mock_transport
         (mkPokemon (JStr "bulbasaur") (JInt 64) JNull JNull (JArr []))
         mock_world) /\
  ~ no_image mock_world
      (back_image mock_transport
         (mkPokemon (JStr "bulbasaur") (JInt 64) JNull JNull (JArr []))
         mock_world).
Proof.
  split; [reflexivity|]. split; [reflexivity|].
  split; intros [[b Hb] _]; discriminate.
Qed.

Section Accessors.
Variable Net : Type.
Variable transport : json -> Net -> result Response * Net.
Variable json_loads : string -> result json.

(** What an image accessor does with the stored value [url]. *)
Lemma image_of_requests_get (url : json) (w : World Net) :
  (picture_resp <- requests_get transport url;;
   ret (io_BytesIO (content picture_resp))) w =
  (match fst (transport url (net w)) with
   | Ok picture_resp => Ok (io_BytesIO (content picture_resp))
   | Raise e => Raise e
   end,
   mkWorld (snd (transport url (net w))) (sent w ++ [url])).
Proof.
  unfold requests_get. cbn.
  destruct (transport url (net w)) as [[resp|e] n]; reflexivity.
Qed.

(** C2, amended.  On an instance whose front sprite URL is [null],
    [front_image] makes one call of [requests.get] with the [null], as with
    any other stored value: it returns the buffer of the response's content,
    positioned at the start, when the transport answers, and raises what
    the transport raises otherwise.  There is no "no image" result.  The
    same holds for [back_image] and the back sprite URL. *)
Theorem image_null_goes_to_transport (self : Pokemon) (w : World Net) :
  (sprite_front_default self = JNull ->
   front_image transport self w =
   (match fst (transport JNull (net w)) with
    | Ok picture_resp => Ok (io_BytesIO (content picture_resp))
    | Raise e => Raise e
    end,
    mkWorld (snd (transport JNull (net w))) (sent w ++ [JNull])))
  /\
  (sprite_back_default self = JNull ->
   back_image transport self w =
   (match fst (transport JNull (net w)) with
    | Ok picture_resp => Ok (io_BytesIO (content picture_resp))
    | Raise e => Raise e
    end,
    mkWorld (snd (transport JNull (net w))) (sent w ++ [JNull]))).
Proof.
  unfold front_image, back_image.
  split; intros <-; apply image_of_requests_get.
Qed.

End Accessors.

(** A witness for C2: both URLs [null], and the transport that raises on
    [null]. *)
Lemma image_null_goes_to_transport_witness :
  front_image mock_transport
    (mkPokemon (JStr "bulbasaur") (JInt 64) JNull JNull (JArr [])) mock_world
  = (Raise (LibError "requests.exceptions.MissingSchema"), mkWorld 0 [JNull])
  /\
  back_image mock_transport
    (mkPokemon (JStr "bulbasaur") (JInt 64) JNull JNull (JArr [])) mock_world
  = (Raise (LibError "requests.exceptions.MissingSchema"), mkWorld 0 [JNull]).
Proof.
  destruct (image_null_goes_to_transport nat mock_transport
              (mkPokemon (JStr "bulbasaur") (JInt 64) JNull JNull (JArr []))
              mock_world) as [Hf Hb].
  split; [exact (Hf eq_refl)|exact (Hb eq_refl)].
Defined.

(** ** The loaders *)

Lemma names_of_Ok entries names :
  Forall2 (fun e n => getitem e "name" = Ok n) entries names ->
  names_of entries = Ok names.
Proof.
  induction 1 as [|e n es ns He _ IH]; simpl.
  - reflexivity.
  - now rewrite He, IH.
Qed.

Section Loaders.
Variable Net : Type.
Variable transport : json -> Net -> result Response * Net.
Variable json_loads : string -> result json.

(** C5.  For every name, [load_pokemon] makes one call of [requests.get],
    with the URL [{base}/pokemon/{name}/]; when the transport answers, the
    result is what [json.loads] makes of the text of the response, as it is
    (a value or the decoder's exception); when the transport raises, the
    same exception is raised. *)
Theorem load_pokemon_one_get (pokemon_name : string) (w : World Net) :
  let url := JStr (entity_url pokemon_name) in
  let out := load_pokemon transport json_loads pokemon_name w in
  sent (snd out) = sent w ++ [url] /\
  net (snd out) = snd (transport url (net w)) /\
  fst out = match fst (transport url (net w)) with
            | Ok resp => json_loads (text resp)
            | Raise e => Raise e
            end.
Proof.
  unfold load_pokemon, entity_url, base_url, requests_get, lift. cbn.
  destruct (transport _ (net w)) as [[resp|e] n]; cbn; auto.
Qed.

(** C6.  [load_all_pokemons] makes one call of [requests.get], with the
    listing URL, limit 100000 and offset 0.  When the transport answers,
    the text decodes to a mapping, its [results] is a sequence and every
    entry of it has a [name], the result is the list of these names, one
    per entry and in the order of the entries. *)
Theorem load_all_pokemons_names :
  (forall w : World Net,
     sent (snd (load_all_pokemons transport json_loads w)) =
     sent w ++ [JStr (listing_url "100000" "0")]) /\
  (forall (w : World Net) resp n' decoded entries names,
     transport (JStr (listing_url "100000" "0")) (net w) = (Ok resp, n') ->
     json_loads (text resp) = Ok decoded ->
     getitem decoded "results" = Ok (JArr entries) ->
     Forall2 (fun e n => getitem e "name" = Ok n) entries names ->
     load_all_pokemons transport json_loads w =
     (Ok names, mkWorld n' (sent w ++ [JStr (listing_url "100000" "0")]))).
Proof.
  unfold load_all_pokemons, listing_url, base_url, requests_get, lift.
  split.
  - intros w. cbn.
    destruct (transport _ (net w)) as [[resp|e] n]; cbn; [|reflexivity].
    destruct (json_loads (text resp)); reflexivity.
  - intros w resp n' decoded entries names Ht Hj Hr Hn. cbn in *.
    rewrite Ht. cbn. rewrite Hj. cbn. rewrite Hr. cbn.
    now rewrite (names_of_Ok _ _ Hn).
Qed.

(** ** Reading the properties of one instance *)

Lemma read_this (a : accessor) (st : Program Net) :
  this (snd (read transport a st)) = this st.
Proof.
  unfold read. now destruct (property transport a (this st) (world st)).
Qed.

Lemma reads_this (calls : list accessor) : forall st : Program Net,
  this (reads transport calls st) = this st.
Proof.
  unfold reads.
  induction calls as [|a calls IH]; intros st; simpl.
  - reflexivity.
  - rewrite IH. apply read_this.
Qed.

(** *** The bodies on a frame *)

(** A body that assigns is seen to: the frame after it has the new
    attribute. *)
Example assignment_changes_the_instance :
  stats (instance (snd ((_ <- self_set Attr_stats JNull;; stats_series_body)
                          (mkFrame pikachu mock_world)))) = JNull /\
  stats pikachu <> JNull.
Proof. split; [reflexivity|discriminate]. Qed.

(** The rounds of the comprehension read and build values only: the frame
    goes through them untouched, and what they give is what
    [dict_comprehension] gives. *)
Lemma comprehension_body_value todo : forall acc (f : Frame Net),
  comprehension_body todo acc f = (dict_comprehension todo acc, f).
Proof.
  induction todo as [|stat rest IH]; intros acc f.
  - reflexivity.
  - cbn [comprehension_body dict_comprehension].
    unfold stat_item, stat_name, expr. cbn [bind Body_Monad result_Monad].
    destruct (getitem stat "stat") as [inner|]; [|reflexivity].
    destruct (getitem inner "name") as [k|]; [|reflexivity].
    destruct (getitem stat "base_stat") as [v|]; [|reflexivity].
    destruct (py_hash k) as [h|]; [|reflexivity].
    cbn [ret result_Monad fst snd]. apply IH.
Qed.

Lemma stats_series_body_value (f : Frame Net) :
  stats_series_body f = (stats_series (instance f), f).
Proof.
  unfold stats_series_body, stats_series, self_get, expr.
  cbn [bind Body_Monad result_Monad attr_get].
  destruct (py_iter (stats (instance f))) as [todo|]; [|reflexivity].
  rewrite comprehension_body_value.
  destruct (dict_comprehension todo []); reflexivity.
Qed.

(** The bodies of the two image properties read one attribute and make one
    request; the only thing they change is the world. *)
Lemma image_body_instance (a : attribute) (f : Frame Net) :
  instance (snd ((url <- self_get a;;
                  picture_resp <- self_request transport url;;
                  ret (io_BytesIO (content picture_resp))) f)) = instance f.
Proof.
  unfold self_get, self_request. cbn [bind Body_Monad].
  destruct (requests_get transport (attr_get (instance f) a) (around f))
    as [[resp|e] w]; reflexivity.
Qed.

(** On a frame the image bodies do what [front_image] and [back_image] do
    on the instance and the world. *)
Lemma image_body_value (f : Frame Net) :
  front_image_body transport f =
  (fst (front_image transport (instance f) (around f)),
   mkFrame (instance f)
     (snd (front_image transport (instance f) (around f)))) /\
  back_image_body transport f =
  (fst (back_image transport (instance f) (around f)),
   mkFrame (instance f)
     (snd (back_image transport (instance f) (around f)))).
Proof.
  unfold front_image_body, back_image_body, front_image, back_image,
    self_get, self_request.
  cbn [bind Body_Monad IO_Monad attr_get].
  split.
  - destruct (requests_get transport (sprite_front_default (instance f))
                (around f)) as [[resp|e] w]; reflexivity.
  - destruct (requests_get transport (sprite_back_default (instance f))
                (around f)) as [[resp|e] w]; reflexivity.
Qed.

Lemma body_instance (a : accessor) (f : Frame Net) :
  instance (snd (body transport a f)) = instance f.
Proof.
  destruct a; unfold body; cbn [bind Body_Monad].
  - pose proof (image_body_instance Attr_sprite_front_default f) as H.
    fold (front_image_body transport) in H.
    destruct (front_image_body transport f) as [[b|e] f']; exact H.
  - pose proof (image_body_instance Attr_sprite_back_default f) as H.
    fold (back_image_body transport) in H.
    destruct (back_image_body transport f) as [[b|e] f']; exact H.
  - rewrite stats_series_body_value.
    destruct (stats_series (instance f)); reflexivity.
Qed.

Lemma run_instance (calls : list accessor) : forall f : Frame Net,
  instance (run transport calls f) = instance f.
Proof.
  unfold run.
  induction calls as [|a calls IH]; intros f; simpl.
  - reflexivity.
  - rewrite IH. apply body_instance.
Qed.

(** C7.  On an instance that holds decoded values, the body of
    [stats_series], run statement by statement on the frame of the
    instance and the world, gives the value of [stats_series] on the
    attributes and leaves the frame as it was: no attribute is assigned, no
    request is made, the network state and the log of requests are the
    same.  Its value depends on the stored [stats] alone, and it is the
    same at any later point, whatever properties were read in between. *)
Theorem stats_series_body_pure :
  (forall f : Frame Net,
     stats_series_body f = (stats_series (instance f), f)) /\
  (forall self n x fr b,
     stats_series self = stats_series (mkPokemon n x fr b (stats self))) /\
  (forall (f : Frame Net) calls,
     fst (stats_series_body (run transport calls f)) =
     fst (stats_series_body f)).
Proof.
  split; [exact stats_series_body_value|]. split; [reflexivity|].
  intros f calls. rewrite !stats_series_body_value. unfold fst.
  now rewrite run_instance.
Qed.

(** C8.  After any sequence of reads of [front_image], [back_image] and
    [stats_series], their bodies run statement by statement on the frame,
    the five attributes of the instance are what they were before: none of
    the bodies assigns one. *)
Theorem run_keeps_fields (calls : list accessor) (f : Frame Net) :
  name (instance (run transport calls f)) = name (instance f) /\
  base_experience (instance (run transport calls f)) =
    base_experience (instance f) /\
  sprite_front_default (instance (run transport calls f)) =
    sprite_front_default (instance f) /\
  sprite_back_default (instance (run transport calls f)) =
    sprite_back_default (instance f) /\
  stats (instance (run transport calls f)) = stats (instance f).
Proof.
  rewrite run_instance. repeat split.
Qed.

End Loaders.

(** A witness for C6: the listing of two names. *)
Lemma load_all_pokemons_names_witness :
  load_all_pokemons mock_transport mock_json_loads mock_world =
  (Ok [JStr "bulbasaur"; JStr "ivysaur"],
   mkWorld 1 [JStr (listing_url "100000" "0")]).
Proof.
  apply (proj2 (load_all_pokemons_names nat mock_transport mock_json_loads)
           mock_world
           {| content := png; text := listing_url "100000" "0" |} 1
           listing_record
           [JObj [("name", JStr "bulbasaur")]; JObj [("name", JStr "ivysaur")]]
           [JStr "bulbasaur"; JStr "ivysaur"]).
  - reflexivity.
  - reflexivity.
  - reflexivity.
  - repeat constructor.
Defined.

(** * More about the code *)

(** ** Keys in the order of their first store *)

Module PyKeysFacts.
Import PyDict PyKeys.

Section WithEquivalence.
Context {K V : Type} (eqb : K -> K -> bool).
Hypothesis eqb_sym : forall a b, eqb a b = eqb b a.
Hypothesis eqb_trans :
  forall a b c, eqb a b = true -> eqb b c = true -> eqb a c = true.

Abbreviation get := (@PyDict.get K V eqb).
Abbreviation setitem := (@PyDict.setitem K V eqb).
Abbreviation update := (@PyDict.update K V eqb).
Abbreviation fresh := (@PyDict.fresh K V eqb).
Abbreviation distinct := (@PyDict.distinct K V eqb).
Abbreviation uniq := (@first_occurrences K eqb).
Abbreviation differs a := (fun k' : K => negb (eqb a k')).

Lemma filter_swap (p q : K -> bool) l :
  filter p (filter q l) = filter q (filter p l).
Proof.
  induction l as [|x l IH]; simpl; [reflexivity|].
  destruct (p x) eqn:Hp, (q x) eqn:Hq; simpl; rewrite ?Hp, ?Hq, IH;
    reflexivity.
Qed.

Lemma filter_twice (p : K -> bool) l : filter p (filter p l) = filter p l.
Proof.
  induction l as [|x l IH]; simpl; [reflexivity|].
  destruct (p x) eqn:Hp; simpl; rewrite ?Hp, IH; reflexivity.
Qed.

Lemma differs_eqb a k l :
  eqb a k = true -> filter (differs a) l = filter (differs k) l.
Proof.
  intros E. apply filter_ext. intros x.
  now rewrite (PyDictFacts.eqb_left eqb eqb_sym eqb_trans a k x E).
Qed.

Lemma uniq_drop_equal a k l l2 :
  eqb a k = true ->
  filter (differs a) (uniq (l ++ k :: l2)) = filter (differs a) (uniq (l ++ l2)).
Proof.
  intros E. induction l as [|b l IH]; simpl.
  - rewrite E. simpl. rewrite <- (differs_eqb a k _ E).
    apply filter_twice.
  - destruct (eqb a b); simpl;
      rewrite (filter_swap (differs a) (differs b)), IH,
        (filter_swap (differs b) (differs a)); reflexivity.
Qed.

(** A key that is there already adds nothing. *)
Lemma uniq_known k l1 l2 :
  existsb (fun a => eqb a k) l1 = true ->
  uniq (l1 ++ k :: l2) = uniq (l1 ++ l2).
Proof.
  induction l1 as [|a l1 IH]; simpl; intros H; [discriminate|].
  f_equal. destruct (eqb a k) eqn:E.
  - now apply uniq_drop_equal.
  - simpl in H. now rewrite IH.
Qed.

Lemma uniq_distinct d : distinct d -> uniq (map fst d) = map fst d.
Proof.
  induction d as [|[k v] d IH]; simpl; intros H; [reflexivity|].
  destruct H as [Hf Hd]. rewrite (IH Hd). f_equal.
  clear IH Hd. induction Hf as [|[k' v'] d Hk _ IH]; simpl in *.
  - reflexivity.
  - rewrite eqb_sym, Hk. simpl. now rewrite IH.
Qed.

Lemma get_existsb d k :
  get d k <> None -> existsb (fun a => eqb a k) (map fst d) = true.
Proof.
  induction d as [|[k0 v0] d IH]; simpl; intros H; [congruence|].
  destruct (eqb k0 k); simpl; auto.
Qed.

(** The keys of a dictionary built by stores are the keys stored, each one
    where it was first stored. *)
Lemma keys_update kvs : forall d,
  distinct d ->
  map fst (update d kvs) = uniq (map fst d ++ map fst kvs).
Proof.
  induction kvs as [|[k v] kvs IH]; intros d Hd.
  - simpl. rewrite app_nil_r. symmetry. now apply uniq_distinct.
  - change (update d ((k, v) :: kvs)) with (update (setitem d k v) kvs).
    rewrite IH
      by (apply (PyDictFacts.distinct_setitem eqb eqb_sym); exact Hd).
    simpl map. destruct (get d k) as [v0|] eqn:G.
    + rewrite (PyDictFacts.setitem_keys eqb d k v) by congruence.
      symmetry. apply uniq_known. apply get_existsb. congruence.
    + rewrite (PyDictFacts.setitem_fresh eqb d k v)
        by (apply PyDictFacts.get_None_fresh; exact G).
      rewrite map_app, <- app_assoc. reflexivity.
Qed.
End WithEquivalence.
End PyKeysFacts.

(** ** The series of statistics *)

Lemma stats_series_inv self s :
  stats_series self = Ok s ->
  exists todo kvs,
    py_iter (stats self) = Ok todo /\ evaluates todo kvs /\
    items s = PyDict.update hkey_eqb [] kvs.
Proof.
  unfold stats_series.
  destruct (py_iter (stats self)) as [todo|]; simpl; [|discriminate].
  destruct (dict_comprehension todo []) as [d|] eqn:E; simpl; [|discriminate].
  intros H. injection H as <-.
  destruct (dict_comprehension_inv _ _ _ E) as (kvs & Hk & ->).
  exists todo, kvs. auto.
Qed.

Lemma stat_keys_evaluates entries kvs :
  evaluates entries kvs -> stat_keys entries = map fst kvs.
Proof.
  unfold stat_keys.
  induction 1 as [|e kv es kvs He _ IH]; simpl; [reflexivity|].
  now rewrite He, IH.
Qed.

(** X1.  Whatever the stored [stats], the labels of a series that
    [stats_series] returns differ from one another, as Python compares
    keys. *)
Theorem stats_series_distinct self s :
  stats_series self = Ok s -> PyDict.distinct hkey_eqb (items s).
Proof.
  intros H. destruct (stats_series_inv _ _ H) as (todo & kvs & _ & _ & ->).
  apply (PyDictFacts.distinct_update hkey_eqb hkey_eqb_sym). exact I.
Qed.

Lemma stats_series_distinct_witness :
  PyDict.distinct hkey_eqb
    [(HStr "hp", JInt 45); (HStr "attack", JInt 49)].
Proof.
  apply (stats_series_distinct
           (mkPokemon (JStr "bulbasaur") (JInt 64) (JStr "url-f")
              (JStr "url-b") (JArr (record_stats bulbasaur_record)))
           (pd_Series [(HStr "hp", JInt 45); (HStr "attack", JInt 49)])).
  reflexivity.
Defined.



Lemma length_update_ge (kvs : dict) : forall d : dict,
  length d <= length (PyDict.update hkey_eqb d kvs).
Proof.
  induction kvs as [|kv kvs IH]; intros d; [apply le_n|].
  change (PyDict.update hkey_eqb d (kv :: kvs))
    with (PyDict.update hkey_eqb
            (PyDict.setitem hkey_eqb d (fst kv) (snd kv)) kvs).
  specialize (IH (PyDict.setitem hkey_eqb d (fst kv) (snd kv))).
  rewrite (PyDictFacts.length_setitem hkey_eqb) in IH.
  destruct (PyDict.get hkey_eqb d (fst kv)); lia.
Qed.

(** X3.  The series never has more items than the sequence has entries,
    and it is empty only when the sequence is. *)
Theorem stats_series_length self entries s :
  stats self = JArr entries ->
  stats_series self = Ok s ->
  length (items s) <= length entries /\
  (items s = [] <-> entries = []).
Proof.
  intros Hs H.
  destruct (stats_series_inv _ _ H) as (todo & kvs & Ht & Hk & Hi).
  rewrite Hs in Ht. injection Ht as <-. rewrite Hi.
  rewrite (Forall2_length Hk). split.
  - apply (PyDictFacts.length_update hkey_eqb kvs []).
  - split.
    + intros E. inversion Hk as [|e kv es kvs' He Hes]; subst; [reflexivity|].
      exfalso.
      pose proof (length_update_ge kvs'
                    (PyDict.setitem hkey_eqb [] (fst kv) (snd kv))) as L.
      change (PyDict.update hkey_eqb [] (kv :: kvs'))
        with (PyDict.update hkey_eqb
                (PyDict.setitem hkey_eqb [] (fst kv) (snd kv)) kvs') in E.
      rewrite E in L. simpl in L. lia.
    + intros ->. inversion Hk; subst. reflexivity.
Qed.

Lemma stats_series_length_witness :
  length [(HStr "hp", JInt 50)] <= length (record_stats twice_hp_record) /\
  ([(HStr "hp", JInt 50)] = [] <-> record_stats twice_hp_record = []).
Proof.
  apply (stats_series_length
           (mkPokemon (JStr "bulbasaur") (JInt 64) (JStr "url-f")
              (JStr "url-b") (JArr (record_stats twice_hp_record)))
           (record_stats twice_hp_record)
           (pd_Series [(HStr "hp", JInt 50)])); reflexivity.
Defined.

Lemma dict_comprehension_first_error pre e post err : forall acc,
  all_evaluate pre = true ->
  stat_item e = Raise err ->
  dict_comprehension (pre ++ e :: post) acc = Raise err.
Proof.
  unfold all_evaluate.
  induction pre as [|x pre IH]; simpl; intros acc Hpre He.
  - now rewrite He.
  - apply andb_prop in Hpre. destruct Hpre as [Hx Hpre].
    destruct (stat_item x) as [kv|]; [|discriminate]. simpl. now apply IH.
Qed.

(** X4.  [stats_series] raises the exception of the first entry of the
    sequence that does not evaluate, whatever comes after that entry; no
    series of the entries before it is returned. *)
Theorem stats_series_first_error self pre e post err :
  stats self = JArr (pre ++ e :: post) ->
  all_evaluate pre = true ->
  stat_item e = Raise err ->
  stats_series self = Raise err.
Proof.
  intros Hs Hpre He. unfold stats_series. rewrite Hs. simpl.
  now rewrite (dict_comprehension_first_error pre e post err [] Hpre He).
Qed.

Lemma stats_series_first_error_witness :
  stats_series
    (mkPokemon JNull JNull JNull JNull
       (JArr [ JObj [("stat", JObj [("name", JStr "hp")]);
                     ("base_stat", JInt 45)];
               JObj [("stat", JObj [("name", JStr "attack")])];
               JNull ]))
  = Raise (KeyError "base_stat").
Proof.
  apply (stats_series_first_error
           (mkPokemon JNull JNull JNull JNull
              (JArr [ JObj [("stat", JObj [("name", JStr "hp")]);
                            ("base_stat", JInt 45)];
                      JObj [("stat", JObj [("name", JStr "attack")])];
                      JNull ]))
           [JObj [("stat", JObj [("name", JStr "hp")]);
                  ("base_stat", JInt 45)]]
           (JObj [("stat", JObj [("name", JStr "attack")])])
           [JNull]); reflexivity.
Defined.

(** X5.  The field [stats] is annotated [dict], but [stats_series] iterates
    it as a sequence of entries: on a mapping it goes over the keys, which
    are strings and cannot be subscripted by "stat".  So on every mapping
    that is not empty it raises [TypeError], and on the empty one it returns
    the empty series. *)
Theorem stats_series_of_mapping n x f b kvs :
  stats_series (mkPokemon n x f b (JObj kvs)) =
  match kvs with
  | [] => Ok (pd_Series [])
  | _ :: _ => Raise TypeError
  end.
Proof. destruct kvs; reflexivity. Qed.





(** ** Construction, again *)

(** X8.  A [KeyError] of [from_dict] tells the truth: the key it names is
    one of the keys read, and it is missing where it was looked up, in the
    payload or under [sprites]. *)
Theorem from_dict_KeyError_absent payload key :
  from_dict payload = Raise (KeyError key) ->
  (In key ["name"; "base_experience"; "sprites"; "stats"] /\
   has_key payload key = false) \/
  (In key ["front_default"; "back_default"] /\
   has_path payload "sprites" key = false).
Proof.
  destruct payload as [| | | | |kvs]; try discriminate.
  unfold from_dict, has_path, has_key, getitem. cbn.
  destruct (PyDict.get String.eqb kvs "name") as [n|] eqn:En; cbn;
    [|intros H; injection H as <-; left; rewrite En; split; [simpl; auto 10|reflexivity]].
  destruct (PyDict.get String.eqb kvs "base_experience") as [x|] eqn:Ex; cbn;
    [|intros H; injection H as <-; left; rewrite Ex; split; [simpl; auto 10|reflexivity]].
  destruct (PyDict.get String.eqb kvs "sprites") as [sprites|] eqn:Es; cbn;
    [|intros H; injection H as <-; left; rewrite Es; split; [simpl; auto 10|reflexivity]].
  destruct sprites as [| | | | |skvs]; cbn; try discriminate.
  destruct (PyDict.get String.eqb skvs "front_default") as [f|] eqn:Ef; cbn;
    [|intros H; injection H as <-; right; rewrite Ef; split; [simpl; auto 10|reflexivity]].
  destruct (PyDict.get String.eqb skvs "back_default") as [b|] eqn:Eb; cbn;
    [|intros H; injection H as <-; right; rewrite Eb; split; [simpl; auto 10|reflexivity]].
  destruct (PyDict.get String.eqb kvs "stats") as [st|] eqn:Et; cbn;
    [discriminate|].
  intros H; injection H as <-; left; rewrite Et; split;
    [simpl; auto 10|reflexivity].
Qed.

Lemma from_dict_KeyError_absent_witness :
  (In "stats" ["name"; "base_experience"; "sprites"; "stats"] /\
   has_key no_stats_record "stats" = false) \/
  (In "stats" ["front_default"; "back_default"] /\
   has_path no_stats_record "sprites" "stats" = false).
Proof.
  apply (from_dict_KeyError_absent no_stats_record "stats"). reflexivity.
Defined.

(** X9.  [from_dict] raises [TypeError] in two cases and no other: the
    payload is not a mapping; or it is one with [name], [base_experience]
    and [sprites], and the value under [sprites] is not a mapping. *)
Theorem from_dict_TypeError_iff payload :
  from_dict payload = Raise TypeError <->
  is_mapping payload = false \/
  (has_key payload "name" = true /\
   has_key payload "base_experience" = true /\
   exists sprites,
     getitem payload "sprites" = Ok sprites /\ is_mapping sprites = false).
Proof.
  destruct payload as [| | | | |kvs];
    try (split; [intros _; left; reflexivity|reflexivity]).
  unfold from_dict, has_key, getitem. cbn.
  destruct (PyDict.get String.eqb kvs "name") as [n|]; cbn;
    [|split; [discriminate|intros [H|[H _]]; discriminate]].
  destruct (PyDict.get String.eqb kvs "base_experience") as [x|]; cbn;
    [|split; [discriminate|intros [H|(_ & H & _)]; discriminate]].
  destruct (PyDict.get String.eqb kvs "sprites") as [sprites|]; cbn;
    [|split; [discriminate|intros [H|(_ & _ & v & H & _)]; discriminate]].
  destruct sprites as [| | | | |skvs]; cbn;
    try (split; [intros _; right; repeat split; eexists; split; reflexivity
                |reflexivity]).
  match goal with |- _ <-> ?R => assert (Hno : ~ R) end.
  { intros [H|(_ & _ & v & Hv & Hm)]; [discriminate|].
    injection Hv as <-. discriminate. }
  destruct (PyDict.get String.eqb skvs "front_default") as [f|]; cbn;
    [|split; [discriminate|intros H; destruct (Hno H)]].
  destruct (PyDict.get String.eqb skvs "back_default") as [b|]; cbn;
    [|split; [discriminate|intros H; destruct (Hno H)]].
  destruct (PyDict.get String.eqb kvs "stats") as [st|]; cbn;
    split; try discriminate; intros H; destruct (Hno H).
Qed.

Lemma get_other_key (kvs1 : list (string * json)) k v kvs2 key :
  String.eqb k key = false ->
  PyDict.get String.eqb (kvs1 ++ (k, v) :: kvs2) key =
  PyDict.get String.eqb (kvs1 ++ kvs2) key.
Proof.
  intros E. induction kvs1 as [|[k0 v0] kvs1 IH]; simpl.
  - now rewrite E.
  - now rewrite IH.
Qed.

(** X10.  [from_dict] reads four keys of the payload and nothing else: an
    item under any other key, wherever it stands in the payload, changes
    neither the instance nor the exception. *)
Theorem from_dict_other_key kvs1 k v kvs2 :
  ~ In k ["name"; "base_experience"; "sprites"; "stats"] ->
  from_dict (JObj (kvs1 ++ (k, v) :: kvs2)) = from_dict (JObj (kvs1 ++ kvs2)).
Proof.
  intros H. unfold from_dict, getitem.
  rewrite !get_other_key; [reflexivity| | | |];
    apply String.eqb_neq; intros ->; apply H; simpl; auto.
Qed.

Lemma from_dict_other_key_witness :
  from_dict
    (JObj ([("name", JStr "bulbasaur")] ++ ("id", JInt 1) ::
           [("base_experience", JInt 64);
            ("sprites", JObj [("front_default", JNull);
                              ("back_default", JNull)]);
            ("stats", JArr [])]))
  = from_dict
      (JObj ([("name", JStr "bulbasaur")] ++
             [("base_experience", JInt 64);
              ("sprites", JObj [("front_default", JNull);
                                ("back_default", JNull)]);
              ("stats", JArr [])])).
Proof.
  apply (from_dict_other_key [("name", JStr "bulbasaur")] "id" (JInt 1)).
  simpl. intros [H|[H|[H|[H|[]]]]]; discriminate.
Defined.

(** ** The loaders, again *)

Lemma names_of_inv todo : forall names,
  names_of todo = Ok names ->
  Forall2 (fun e n => getitem e "name" = Ok n) todo names.
Proof.
  induction todo as [|e todo IH]; simpl; intros names H.
  - injection H as <-. constructor.
  - destruct (getitem e "name") as [n|] eqn:E; simpl in H; [|discriminate].
    destruct (names_of todo) as [ns|]; simpl in H; [|discriminate].
    injection H as <-. constructor; auto.
Qed.

Lemma names_of_first_error pre e post err :
  Forall (fun x => exists n, getitem x "name" = Ok n) pre ->
  getitem e "name" = Raise err ->
  names_of (pre ++ e :: post) = Raise err.
Proof.
  intros Hpre He. induction Hpre as [|x pre [n Hx] _ IH]; simpl.
  - now rewrite He.
  - now rewrite Hx, IH.
Qed.

Lemma append_slash_inj (a : string) : forall b,
  (a ++ "/")%string = (b ++ "/")%string -> a = b.
Proof.
  induction a as [|c a IH]; intros [|d b]; simpl; intros H.
  - reflexivity.
  - injection H as _ H. destruct b; discriminate.
  - injection H as _ H. destruct a; discriminate.
  - injection H as -> H. f_equal. auto.
Qed.

Section LoadersAgain.
Variable Net : Type.
Variable transport : json -> Net -> result Response * Net.
Variable json_loads : string -> result json.

(** X11.  When [load_all_pokemons] returns a list, it is complete: the
    transport answered, the text decoded, the decoded value had [results],
    and the list holds the [name] of every element that the iteration of
    [results] gives, one for one and in that order.  A listing with an
    entry that has no name gives no shorter list, but an exception. *)
Theorem load_all_pokemons_complete (w : World Net) names :
  fst (load_all_pokemons transport json_loads w) = Ok names ->
  exists resp decoded results todo,
    fst (transport (JStr (listing_url "100000" "0")) (net w)) = Ok resp /\
    json_loads (text resp) = Ok decoded /\
    getitem decoded "results" = Ok results /\
    py_iter results = Ok todo /\
    Forall2 (fun e n => getitem e "name" = Ok n) todo names.
Proof.
  unfold load_all_pokemons, listing_url, base_url, requests_get, lift. cbn.
  destruct (transport _ (net w)) as [[resp|e] n]; cbn; [|discriminate].
  destruct (json_loads (text resp)) as [decoded|] eqn:Ej; cbn; [|discriminate].
  destruct (getitem decoded "results") as [results|] eqn:Er; cbn;
    [|discriminate].
  destruct (py_iter results) as [todo|] eqn:Ei; cbn; [|discriminate].
  intros H. apply names_of_inv in H.
  exists resp, decoded, results, todo. auto.
Qed.

(** X12.  The first entry of the listing that has no [name] decides: its
    exception is the exception of [load_all_pokemons], after the one
    request. *)
Theorem load_all_pokemons_first_error
    (w : World Net) resp n' decoded pre e post err :
  transport (JStr (listing_url "100000" "0")) (net w) = (Ok resp, n') ->
  json_loads (text resp) = Ok decoded ->
  getitem decoded "results" = Ok (JArr (pre ++ e :: post)) ->
  Forall (fun x => exists n, getitem x "name" = Ok n) pre ->
  getitem e "name" = Raise err ->
  load_all_pokemons transport json_loads w =
  (Raise err, mkWorld n' (sent w ++ [JStr (listing_url "100000" "0")])).
Proof.
  unfold load_all_pokemons, listing_url, base_url, requests_get, lift.
  intros Ht Hj Hr Hpre He. cbn in *.
  rewrite Ht. cbn. rewrite Hj. cbn. rewrite Hr. cbn.
  now rewrite (names_of_first_error pre e post err Hpre He).
Qed.

(** X13.  Two names that differ are requested at URLs that differ: the
    name is put into the path as it is, and nothing is cut or folded. *)
Theorem load_pokemon_urls_differ (a b : string) (w : World Net) :
  sent (snd (load_pokemon transport json_loads a w)) =
  sent (snd (load_pokemon transport json_loads b w)) ->
  a = b.
Proof.
  unfold load_pokemon, requests_get, lift. cbn.
  destruct (transport _ (net w)) as [[ra|ea] na];
    destruct (transport _ (net w)) as [[rb|eb] nb]; cbn;
    intros H; apply app_inv_head in H; injection H as H;
    now apply append_slash_inj.
Qed.

(** X14.  Every read of an image property makes one request, with the URL
    stored in the instance, and a read of [stats_series] makes none: after
    any sequence of reads the requests made are the stored URLs, read for
    read.  Nothing is kept from one read to the next. *)
Theorem reads_requests (calls : list accessor) : forall st : Program Net,
  sent (world (reads transport calls st)) =
  sent (world st) ++ flat_map (requested (this st)) calls.
Proof.
  unfold reads.
  induction calls as [|a calls IH]; intros st; simpl.
  - now rewrite app_nil_r.
  - rewrite IH. rewrite (read_this Net transport a st).
    rewrite app_assoc. f_equal.
    destruct st as [self w]. unfold read, property. simpl this. simpl world.
    destruct a.
    + unfold front_image, requests_get. cbn.
      destruct (transport _ (net w)) as [[r|e] n]; reflexivity.
    + unfold back_image, requests_get. cbn.
      destruct (transport _ (net w)) as [[r|e] n]; reflexivity.
    + unfold lift, requested. destruct (stats_series self); cbn;
        now rewrite app_nil_r.
Qed.

End LoadersAgain.

Lemma load_all_pokemons_complete_witness :
  exists resp decoded results todo,
    fst (mock_transport (JStr (listing_url "100000" "0")) (net mock_world))
      = Ok resp /\
    mock_json_loads (text resp) = Ok decoded /\
    getitem decoded "results" = Ok results /\
    py_iter results = Ok todo /\
    Forall2 (fun e n => getitem e "name" = Ok n) todo
      [JStr "bulbasaur"; JStr "ivysaur"].
Proof.
  apply (load_all_pokemons_complete nat mock_transport mock_json_loads
           mock_world [JStr "bulbasaur"; JStr "ivysaur"]).
  reflexivity.
Defined.

Lemma load_pokemon_urls_differ_witness : "mew" = "mew".
Proof.
  apply (load_pokemon_urls_differ nat mock_transport mock_json_loads
           "mew" "mew" mock_world).
  reflexivity.
Defined.

Lemma load_all_pokemons_first_error_witness :
  load_all_pokemons mock_transport (mock_decoder nameless_listing JNull)
    mock_world =
  (Raise (KeyError "name"), mkWorld 1 [JStr (listing_url "100000" "0")]).
Proof.
  apply (load_all_pokemons_first_error nat mock_transport
           (mock_decoder nameless_listing JNull) mock_world
           {| content := png; text := listing_url "100000" "0" |} 1
           nameless_listing
           [JObj [("name", JStr "bulbasaur")]]
           (JObj [("url", JStr "https://pokeapi.co")])
           [JObj [("name", JStr "ivysaur")]]
           (KeyError "name")); try reflexivity.
  repeat constructor. exists (JStr "bulbasaur"). reflexivity.
Defined.

(** ** The template *)

Section Template.
Variable Net : Type.
Variable Ui : Type.
Variable transport : json -> Net -> result Response * Net.
Variable draw : widget -> Ui -> result unit * Ui.

(** X15.  When the framework takes the three calls and the transport
    answers twice, [pokemon_template] requests the front sprite and then
    the back sprite, in the network state the first request left, and makes
    three calls: the subheader with the name, the two images (front first)
    with the bytes of the two responses, each buffer at position 0, and the
    bar chart of [stats_series].  The memo is not touched. *)
Theorem pokemon_template_draws
    (p : Pokemon) (s : Session Net Ui) u1 resp_f n1 resp_b n2 u2 series u3 :
  draw (St_subheader (name p)) (ui s) = (Ok tt, u1) ->
  transport (sprite_front_default p) (net (outside s)) = (Ok resp_f, n1) ->
  transport (sprite_back_default p) n1 = (Ok resp_b, n2) ->
  draw (St_image [mkBytesIO (content resp_f) 0; mkBytesIO (content resp_b) 0])
    u1 = (Ok tt, u2) ->
  stats_series p = Ok series ->
  draw (St_bar_chart series) u2 = (Ok tt, u3) ->
  pokemon_template transport draw p s =
  (Ok tt,
   mkSession
     (mkWorld n2 (sent (outside s) ++
                  [sprite_front_default p; sprite_back_default p]))
     u3
     (drawn s ++
      [St_subheader (name p);
       St_image [mkBytesIO (content resp_f) 0; mkBytesIO (content resp_b) 0];
       St_bar_chart series])
     (memo s)).
Proof.
  intros H1 Hf Hb H2 Hs H3.
  destruct s as [[n0 sent0] u0 drawn0 memo0].
  unfold pokemon_template, st, io, front_image, back_image, requests_get,
    lift, io_BytesIO.
  cbn in *. rewrite H1. cbn. rewrite Hf. cbn. rewrite Hb. cbn.
  rewrite H2. cbn. rewrite Hs. cbn. rewrite H3. cbn.
  now rewrite <- !app_assoc.
Qed.

(** X16.  When the request of the front sprite raises, [pokemon_template]
    raises the same exception; the back sprite is not requested, and the
    subheader is the only call made. *)
Theorem pokemon_template_front_fails
    (p : Pokemon) (s : Session Net Ui) u1 e n1 :
  draw (St_subheader (name p)) (ui s) = (Ok tt, u1) ->
  transport (sprite_front_default p) (net (outside s)) = (Raise e, n1) ->
  pokemon_template transport draw p s =
  (Raise e,
   mkSession (mkWorld n1 (sent (outside s) ++ [sprite_front_default p]))
     u1 (drawn s ++ [St_subheader (name p)]) (memo s)).
Proof.
  intros H1 Hf.
  destruct s as [[n0 sent0] u0 drawn0 memo0].
  unfold pokemon_template, st, io, front_image, requests_get.
  cbn in *. rewrite H1. cbn. rewrite Hf. reflexivity.
Qed.

(** X17.  [stats_series] is read last: when it raises, both sprites have
    been requested and the subheader and the images have been handed to the
    framework before the exception comes, and no chart is drawn. *)
Theorem pokemon_template_stats_last
    (p : Pokemon) (s : Session Net Ui) u1 resp_f n1 resp_b n2 u2 e :
  draw (St_subheader (name p)) (ui s) = (Ok tt, u1) ->
  transport (sprite_front_default p) (net (outside s)) = (Ok resp_f, n1) ->
  transport (sprite_back_default p) n1 = (Ok resp_b, n2) ->
  draw (St_image [mkBytesIO (content resp_f) 0; mkBytesIO (content resp_b) 0])
    u1 = (Ok tt, u2) ->
  stats_series p = Raise e ->
  pokemon_template transport draw p s =
  (Raise e,
   mkSession
     (mkWorld n2 (sent (outside s) ++
                  [sprite_front_default p; sprite_back_default p]))
     u2
     (drawn s ++
      [St_subheader (name p);
       St_image [mkBytesIO (content resp_f) 0; mkBytesIO (content resp_b) 0]])
     (memo s)).
Proof.
  intros H1 Hf Hb H2 Hs.
  destruct s as [[n0 sent0] u0 drawn0 memo0].
  unfold pokemon_template, st, io, front_image, back_image, requests_get,
    lift, io_BytesIO.
  cbn in *. rewrite H1. cbn. rewrite Hf. cbn. rewrite Hb. cbn.
  rewrite H2. cbn. rewrite Hs. cbn.
  now rewrite <- !app_assoc.
Qed.

Ltac other_widget :=
  unfold not; intros;
  repeat match goal with
         | H : In _ _ |- _ => simpl in H
         | H : _ \/ _ |- _ => destruct H
         | H : False |- _ => destruct H
         | H : _ = _ |- _ => discriminate H
         | H : St_bar_chart _ = St_bar_chart _ |- _ => injection H as <-
         end;
  try (split; reflexivity); try reflexivity.

Ltac stage k :=
  exists k; eexists; cbn;
  (split; [rewrite ?app_nil_r, <- ?app_assoc; reflexivity|]);
  (split; [rewrite <- ?app_assoc; reflexivity|]);
  (split; [reflexivity|]);
  repeat split; other_widget.

(** The outcomes of [pokemon_template], stage by stage. *)
Lemma pokemon_template_cases (p : Pokemon) (s : Session Net Ui) :
  exists k l,
    sent (outside (snd (pokemon_template transport draw p s))) =
      sent (outside s) ++
      firstn k [sprite_front_default p; sprite_back_default p] /\
    drawn (snd (pokemon_template transport draw p s)) = drawn s ++ l /\
    memo (snd (pokemon_template transport draw p s)) = memo s /\
    (forall image, In (St_image image) l -> k = 2) /\
    (forall data, In (St_bar_chart data) l ->
                  k = 2 /\ stats_series p = Ok data) /\
    (forall label options, ~ In (St_sidebar_selectbox label options) l).
Proof.
  destruct s as [[n0 sent0] u0 drawn0 memo0].
  unfold pokemon_template, lift.
  destruct (stats_series p) as [series|e3];
    unfold st, io, front_image, back_image, requests_get, io_BytesIO; cbn;
    (destruct (draw (St_subheader (name p)) u0) as [[[]|e1] u1]; cbn;
     [|solve [stage 0]]);
    (destruct (transport (sprite_front_default p) n0) as [[rf|ef] n1]; cbn;
     [|solve [stage 1]]);
    (destruct (transport (sprite_back_default p) n1) as [[rb|eb] n2]; cbn;
     [|solve [stage 2]]);
    (destruct (draw (St_image _) u1) as [[[]|e2] u2]; cbn;
     [|solve [stage 2]]);
    try solve [stage 2].
  destruct (draw (St_bar_chart series) u2) as [[[]|e4] u3]; cbn;
    solve [stage 2].
Qed.

(** X18.  Whatever the transport and the framework do, [pokemon_template]
    requests nothing but the two stored sprite URLs, the front one first
    and each once at most; it hands images to the framework only when both
    were requested, and a chart only when it is the series of the instance;
    it leaves the memo of the listing as it is. *)
Theorem pokemon_template_effects (p : Pokemon) (s : Session Net Ui) :
  exists k l,
    sent (outside (snd (pokemon_template transport draw p s))) =
      sent (outside s) ++
      firstn k [sprite_front_default p; sprite_back_default p] /\
    drawn (snd (pokemon_template transport draw p s)) = drawn s ++ l /\
    memo (snd (pokemon_template transport draw p s)) = memo s /\
    (forall image, In (St_image image) l -> k = 2) /\
    (forall data, In (St_bar_chart data) l ->
                  k = 2 /\ stats_series p = Ok data).
Proof.
  destruct (pokemon_template_cases p s) as (k & l & H1 & H2 & H3 & H4 & H5 & _).
  exists k, l. auto.
Qed.

End Template.

Lemma pokemon_template_draws_witness :
  pokemon_template mock_transport mock_draw pikachu mock_session =
  (Ok tt,
   mkSession
     (mkWorld 2 [JStr "https://img/25.png"; JStr "https://img/back/25.png"])
     3
     [St_subheader (JStr "pikachu");
      St_image [mkBytesIO png 0; mkBytesIO png 0];
      St_bar_chart (pd_Series [(HStr "hp", JInt 35)])]
     None).
Proof.
  apply (pokemon_template_draws nat nat mock_transport mock_draw pikachu
           mock_session 1
           {| content := png; text := "https://img/25.png" |} 1
           {| content := png; text := "https://img/back/25.png" |} 2
           2 (pd_Series [(HStr "hp", JInt 35)]) 3); reflexivity.
Defined.

Lemma pokemon_template_front_fails_witness :
  pokemon_template mock_transport mock_draw
    (mkPokemon (JStr "bulbasaur") (JInt 64) JNull JNull (JArr []))
    mock_session =
  (Raise (LibError "requests.exceptions.MissingSchema"),
   mkSession (mkWorld 0 [JNull]) 1 [St_subheader (JStr "bulbasaur")] None).
Proof.
  apply (pokemon_template_front_fails nat nat mock_transport mock_draw
           (mkPokemon (JStr "bulbasaur") (JInt 64) JNull JNull (JArr []))
           mock_session 1 (LibError "requests.exceptions.MissingSchema") 0);
    reflexivity.
Defined.

Lemma pokemon_template_stats_last_witness :
  pokemon_template mock_transport mock_draw
    (mkPokemon (JStr "pikachu") (JInt 112) (JStr "https://img/25.png")
       (JStr "https://img/back/25.png") JNull)
    mock_session =
  (Raise TypeError,
   mkSession
     (mkWorld 2 [JStr "https://img/25.png"; JStr "https://img/back/25.png"])
     2
     [St_subheader (JStr "pikachu");
      St_image [mkBytesIO png 0; mkBytesIO png 0]]
     None).
Proof.
  apply (pokemon_template_stats_last nat nat mock_transport mock_draw
           (mkPokemon (JStr "pikachu") (JInt 112) (JStr "https://img/25.png")
              (JStr "https://img/back/25.png") JNull)
           mock_session 1
           {| content := png; text := "https://img/25.png" |} 1
           {| content := png; text := "https://img/back/25.png" |} 2
           2 TypeError); reflexivity.
Defined.

(** ** One run of the script *)

Section Script.
Variable Net : Type.
Variable Ui : Type.
Variable transport : json -> Net -> result Response * Net.
Variable json_loads : string -> result json.
Variable draw : widget -> Ui -> result unit * Ui.
Variable selectbox : string -> list json -> Ui -> result json * Ui.
Variable py_repr : json -> string.

Lemma load_all_pokemons_sent (w : World Net) :
  sent (snd (load_all_pokemons transport json_loads w)) =
  sent w ++ [JStr (listing_url "100000" "0")].
Proof.
  unfold load_all_pokemons, listing_url, base_url, requests_get, lift. cbn.
  destruct (transport _ (net w)) as [[resp|e] n]; cbn; [|reflexivity].
  destruct (json_loads (text resp)); reflexivity.
Qed.

(** X19.  The listing is fetched once: a call of the cached
    [load_all_pokemons] that returns a list leaves it in the memo, and a
    call in a session whose memo holds a list returns that list and leaves
    the session as it is, with no request.  A call that raises leaves the
    memo empty, so that the next call asks the service again. *)
Theorem load_all_pokemons_cached_once (s : Session Net Ui) :
  (forall names,
     fst (load_all_pokemons_cached transport json_loads s) = Ok names ->
     memo (snd (load_all_pokemons_cached transport json_loads s)) =
       Some names /\
     load_all_pokemons_cached transport json_loads
       (snd (load_all_pokemons_cached transport json_loads s)) =
     (Ok names, snd (load_all_pokemons_cached transport json_loads s))) /\
  (forall e,
     fst (load_all_pokemons_cached transport json_loads s) = Raise e ->
     memo (snd (load_all_pokemons_cached transport json_loads s)) = None /\
     sent (outside (snd (load_all_pokemons_cached transport json_loads s))) =
       sent (outside s) ++ [JStr (listing_url "100000" "0")]).
Proof.
  pose proof (load_all_pokemons_sent (outside s)) as Hsent.
  unfold load_all_pokemons_cached.
  destruct (memo s) as [cached|] eqn:Em.
  - cbn [fst snd]. split.
    + intros names H. injection H as <-. rewrite Em. auto.
    + intros e H. discriminate H.
  - destruct (load_all_pokemons transport json_loads (outside s))
      as [[names0|e0] w]; cbn [fst snd memo outside] in *.
    + split; [|intros e H; discriminate H].
      intros names H. injection H as <-. auto.
    + split; [intros names H; discriminate H|]. intros e H. auto.
Qed.

(** The session after the title was drawn. *)
Lemma streamlit_app_title (s : Session Net Ui) u1 :
  draw (St_title "Online Pokedex") (ui s) = (Ok tt, u1) ->
  streamlit_app transport json_loads draw selectbox py_repr s =
  (options <- load_all_pokemons_cached transport json_loads;;
   pokemon_choice <- st_sidebar_selectbox selectbox "Select Pokemon" options;;
   payload <- io (load_pokemon transport json_loads
                    (py_format py_repr pokemon_choice));;
   bulbasaur <- io (lift (from_dict payload));;
   pokemon_template transport draw bulbasaur)
    (mkSession (outside s) u1 (drawn s ++ [St_title "Online Pokedex"])
       (memo s)).
Proof.
  intros H. unfold streamlit_app at 1. unfold st at 1.
  cbn [bind App_Monad]. now rewrite H.
Qed.

(** X20.  When the listing cannot be had (no list in the memo, and
    [load_all_pokemons] raises), the run ends with that exception: the
    title is the only call made to the framework, no select box is shown,
    the one request is the one of the listing, and the memo stays empty. *)
Theorem streamlit_app_listing_fails (s : Session Net Ui) u1 e w1 :
  draw (St_title "Online Pokedex") (ui s) = (Ok tt, u1) ->
  memo s = None ->
  load_all_pokemons transport json_loads (outside s) = (Raise e, w1) ->
  streamlit_app transport json_loads draw selectbox py_repr s =
  (Raise e,
   mkSession w1 u1 (drawn s ++ [St_title "Online Pokedex"]) None) /\
  sent w1 = sent (outside s) ++ [JStr (listing_url "100000" "0")].
Proof.
  intros Ht Hm Hl. split.
  - rewrite (streamlit_app_title s u1 Ht).
    unfold load_all_pokemons_cached. cbn [bind App_Monad memo outside].
    rewrite Hm, Hl. reflexivity.
  - pose proof (load_all_pokemons_sent (outside s)) as H.
    now rewrite Hl in H.
Qed.

(** X21.  When the payload of the chosen name has not the keys that
    [from_dict] reads, the run ends with the exception of [from_dict]:
    the select box is the last call made to the framework, and no sprite
    is requested. *)
Theorem streamlit_app_bad_payload
    (s : Session Net Ui) u1 options s1 choice u2 payload w2 e :
  draw (St_title "Online Pokedex") (ui s) = (Ok tt, u1) ->
  load_all_pokemons_cached transport json_loads
    (mkSession (outside s) u1 (drawn s ++ [St_title "Online Pokedex"])
       (memo s)) = (Ok options, s1) ->
  selectbox "Select Pokemon" options (ui s1) = (Ok choice, u2) ->
  load_pokemon transport json_loads (py_format py_repr choice) (outside s1) =
    (Ok payload, w2) ->
  from_dict payload = Raise e ->
  streamlit_app transport json_loads draw selectbox py_repr s =
  (Raise e,
   mkSession w2 u2
     (drawn s1 ++ [St_sidebar_selectbox "Select Pokemon" options])
     (memo s1)).
Proof.
  intros Ht Hc Hs Hl Hf.
  rewrite (streamlit_app_title s u1 Ht).
  cbn [bind App_Monad]. rewrite Hc.
  unfold st_sidebar_selectbox at 1. rewrite Hs.
  unfold io at 1. cbn [outside ui drawn memo]. rewrite Hl.
  unfold io at 1, lift. cbn [outside ui drawn memo]. rewrite Hf.
  reflexivity.
Qed.

(** X22.  When the listing is had, the select box returns a choice and the
    payload of that choice gives an instance, the run is the template of
    that instance: the entity is requested under the name chosen, after the
    listing and before any sprite. *)
Theorem streamlit_app_shows_choice
    (s : Session Net Ui) u1 options s1 choice u2 payload w2 p :
  draw (St_title "Online Pokedex") (ui s) = (Ok tt, u1) ->
  load_all_pokemons_cached transport json_loads
    (mkSession (outside s) u1 (drawn s ++ [St_title "Online Pokedex"])
       (memo s)) = (Ok options, s1) ->
  selectbox "Select Pokemon" options (ui s1) = (Ok choice, u2) ->
  load_pokemon transport json_loads (py_format py_repr choice) (outside s1) =
    (Ok payload, w2) ->
  from_dict payload = Ok p ->
  streamlit_app transport json_loads draw selectbox py_repr s =
  pokemon_template transport draw p
    (mkSession w2 u2
       (drawn s1 ++ [St_sidebar_selectbox "Select Pokemon" options])
       (memo s1)).
Proof.
  intros Ht Hc Hs Hl Hf.
  rewrite (streamlit_app_title s u1 Ht).
  cbn [bind App_Monad]. rewrite Hc.
  unfold st_sidebar_selectbox at 1. rewrite Hs.
  unfold io at 1. cbn [outside ui drawn memo]. rewrite Hl.
  unfold io at 1, lift. cbn [outside ui drawn memo]. rewrite Hf.
  reflexivity.
Qed.

End Script.

Section SelectBox.
Variable Net : Type.
Variable Ui : Type.
Variable transport : json -> Net -> result Response * Net.
Variable json_loads : string -> result json.
Variable draw : widget -> Ui -> result unit * Ui.
Variable selectbox : string -> list json -> Ui -> result json * Ui.
Variable py_repr : json -> string.

Lemma streamlit_app_drawn (s : Session Net Ui) :
  exists l,
    drawn (snd (streamlit_app transport json_loads draw selectbox py_repr s))
      = drawn s ++ l /\
    forall label options,
      In (St_sidebar_selectbox label options) l ->
      label = "Select Pokemon" /\ listing_of transport json_loads s options.
Proof.
  unfold listing_of.
  destruct (draw (St_title "Online Pokedex") (ui s)) as [[[]|e0] u1] eqn:Ht.
  2:{ exists [St_title "Online Pokedex"]. split.
      - unfold streamlit_app, st. cbn [bind App_Monad]. now rewrite Ht.
      - intros label options [H|[]]. discriminate H. }
  rewrite (streamlit_app_title Net Ui transport json_loads draw selectbox
             py_repr s u1 Ht).
  cbn [bind App_Monad].
  assert (Hc : exists r s1,
             load_all_pokemons_cached transport json_loads
               (mkSession (outside s) u1
                  (drawn s ++ [St_title "Online Pokedex"]) (memo s)) = (r, s1)
             /\ drawn s1 = drawn s ++ [St_title "Online Pokedex"]
             /\ forall options, r = Ok options ->
                  match memo s with
                  | Some names => options = names
                  | None =>
                      fst (load_all_pokemons transport json_loads (outside s))
                      = Ok options
                  end).
  { unfold load_all_pokemons_cached. cbn [memo outside ui drawn].
    destruct (memo s) as [names|].
    - eexists _, _. split; [reflexivity|]. split; [reflexivity|].
      intros options H. now injection H as <-.
    - destruct (load_all_pokemons transport json_loads (outside s))
        as [[names|e] w1]; eexists _, _;
        (split; [reflexivity|]); (split; [reflexivity|]);
        intros options H; [now injection H as <-|discriminate H]. }
  destruct Hc as (r & s1 & Hc & Hd1 & Hopt). rewrite Hc.
  destruct r as [options|e1].
  2:{ exists [St_title "Online Pokedex"]. split; [exact Hd1|].
      intros label opts [H|[]]. discriminate H. }
  specialize (Hopt options eq_refl).
  unfold st_sidebar_selectbox at 1.
  set (box := St_sidebar_selectbox "Select Pokemon" options).
  assert (Hbox : forall l',
             (forall label opts, ~ In (St_sidebar_selectbox label opts) l') ->
             forall label opts,
               In (St_sidebar_selectbox label opts)
                  ([St_title "Online Pokedex"; box] ++ l') ->
               label = "Select Pokemon" /\
               match memo s with
               | Some names => opts = names
               | None =>
                   fst (load_all_pokemons transport json_loads (outside s))
                   = Ok opts
               end).
  { intros l' Hl' label opts [H|[H|H]].
    - discriminate H.
    - unfold box in H. injection H as <- <-. auto.
    - destruct (Hl' _ _ H). }
  destruct (selectbox "Select Pokemon" options (ui s1))
    as [[choice|e2] u2].
  2:{ exists ([St_title "Online Pokedex"; box] ++ []). split.
      - cbn [snd drawn]. rewrite Hd1, <- app_assoc. reflexivity.
      - apply Hbox. intros label opts []. }
  unfold io at 1. cbn [outside ui drawn memo].
  destruct (load_pokemon transport json_loads (py_format py_repr choice)
              (outside s1)) as [[payload|e3] w2].
  2:{ exists ([St_title "Online Pokedex"; box] ++ []). split.
      - cbn [snd drawn]. rewrite Hd1, <- app_assoc. reflexivity.
      - apply Hbox. intros label opts []. }
  unfold io at 1, lift. cbn [outside ui drawn memo].
  destruct (from_dict payload) as [p|e4].
  2:{ exists ([St_title "Online Pokedex"; box] ++ []). split.
      - cbn [snd drawn]. rewrite Hd1, <- app_assoc. reflexivity.
      - apply Hbox. intros label opts []. }
  destruct (pokemon_template_cases Net Ui transport draw p
              (mkSession w2 u2 (drawn s1 ++ [box]) (memo s1)))
    as (k & l' & _ & Hd & _ & _ & _ & Hno).
  exists ([St_title "Online Pokedex"; box] ++ l'). split.
  - rewrite Hd. cbn [drawn]. rewrite Hd1, <- !app_assoc. reflexivity.
  - apply Hbox. exact Hno.
Qed.

(** X23.  Whatever happens in a run, a select box that the run shows has
    the label "Select Pokemon" and is given the listing as it is: the list
    in the memo when there is one, and else the list that
    [load_all_pokemons] returns, in its order and with nothing added or
    left out. *)
Theorem streamlit_app_select_box (s : Session Net Ui) l label options :
  drawn (snd (streamlit_app transport json_loads draw selectbox py_repr s))
    = drawn s ++ l ->
  In (St_sidebar_selectbox label options) l ->
  label = "Select Pokemon" /\ listing_of transport json_loads s options.
Proof.
  intros Hd Hin.
  destruct (streamlit_app_drawn s) as (l0 & Hd0 & H0).
  rewrite Hd0 in Hd. apply app_inv_head in Hd. subst l0.
  exact (H0 label options Hin).
Qed.

End SelectBox.

(** ** Runs of the script on the sample data *)

Lemma streamlit_app_listing_fails_witness :
  streamlit_app mock_transport (mock_decoder JNull JNull) mock_draw
    mock_selectbox mock_repr mock_session =
  (Raise TypeError,
   mkSession (mkWorld 1 [JStr (listing_url "100000" "0")]) 1
     [St_title "Online Pokedex"] None) /\
  sent (mkWorld 1 [JStr (listing_url "100000" "0")]) =
  sent (outside mock_session) ++ [JStr (listing_url "100000" "0")].
Proof.
  apply (streamlit_app_listing_fails nat nat mock_transport
           (mock_decoder JNull JNull) mock_draw mock_selectbox mock_repr
           mock_session 1 TypeError
           (mkWorld 1 [JStr (listing_url "100000" "0")]));
    reflexivity.
Defined.

Lemma streamlit_app_bad_payload_witness :
  streamlit_app mock_transport (mock_decoder pikachu_listing (JArr []))
    mock_draw mock_selectbox mock_repr mock_session =
  (Raise TypeError,
   mkSession
     (mkWorld 2 [JStr (listing_url "100000" "0");
                 JStr (entity_url "pikachu")])
     2
     [St_title "Online Pokedex";
      St_sidebar_selectbox "Select Pokemon" [JStr "pikachu"]]
     (Some [JStr "pikachu"])).
Proof.
  apply (streamlit_app_bad_payload nat nat mock_transport
           (mock_decoder pikachu_listing (JArr [])) mock_draw mock_selectbox
           mock_repr mock_session 1 [JStr "pikachu"]
           (mkSession (mkWorld 1 [JStr (listing_url "100000" "0")]) 1
              [St_title "Online Pokedex"] (Some [JStr "pikachu"]))
           (JStr "pikachu") 2 (JArr [])
           (mkWorld 2 [JStr (listing_url "100000" "0");
                       JStr (entity_url "pikachu")])
           TypeError); reflexivity.
Defined.

Lemma streamlit_app_shows_choice_witness :
  streamlit_app mock_transport (mock_decoder pikachu_listing pikachu_record)
    mock_draw mock_selectbox mock_repr mock_session =
  (Ok tt,
   mkSession
     (mkWorld 4 [JStr (listing_url "100000" "0");
                 JStr (entity_url "pikachu");
                 JStr "https://img/25.png";
                 JStr "https://img/back/25.png"])
     5
     [St_title "Online Pokedex";
      St_sidebar_selectbox "Select Pokemon" [JStr "pikachu"];
      St_subheader (JStr "pikachu");
      St_image [mkBytesIO png 0; mkBytesIO png 0];
      St_bar_chart (pd_Series [(HStr "hp", JInt 35)])]
     (Some [JStr "pikachu"])).
Proof.
  rewrite (streamlit_app_shows_choice nat nat mock_transport
             (mock_decoder pikachu_listing pikachu_record) mock_draw
             mock_selectbox mock_repr mock_session 1 [JStr "pikachu"]
             (mkSession (mkWorld 1 [JStr (listing_url "100000" "0")]) 1
                [St_title "Online Pokedex"] (Some [JStr "pikachu"]))
             (JStr "pikachu") 2 pikachu_record
             (mkWorld 2 [JStr (listing_url "100000" "0");
                         JStr (entity_url "pikachu")])
             pikachu eq_refl eq_refl eq_refl eq_refl eq_refl).
  reflexivity.
Defined.

Lemma streamlit_app_select_box_witness :
  "Select Pokemon" = "Select Pokemon" /\
  listing_of mock_transport (mock_decoder pikachu_listing pikachu_record)
    mock_session [JStr "pikachu"].
Proof.
  apply (streamlit_app_select_box nat nat mock_transport
           (mock_decoder pikachu_listing pikachu_record) mock_draw
           mock_selectbox mock_repr mock_session
           [St_title "Online Pokedex";
            St_sidebar_selectbox "Select Pokemon" [JStr "pikachu"];
            St_subheader (JStr "pikachu");
            St_image [mkBytesIO png 0; mkBytesIO png 0];
            St_bar_chart (pd_Series [(HStr "hp", JInt 35)])]
           "Select Pokemon" [JStr "pikachu"]).
  - reflexivity.
  - right. left. reflexivity.
Defined.
